(** * uuid-mcp: a shallow embedding of [src/server.ts] and [src/index.ts]

    The development follows the two source files of the server:
    - [server.ts]: the module-level history array, the [generate_uuid] and
      [validate_uuid] tools, the [uuid://history] resource and
      [generateUuidV7];
    - [index.ts]: the command line ([useHttp], [port], [main]), the
      session map, the [POST], [GET] and [DELETE] routes of [/mcp] and
      the [/health] route.

    JavaScript values are modelled as the program has them: strings are
    sequences of UTF-16 code units, numbers are IEEE-754 binary64 values
    (the executable specification [SpecFloat] of the standard library),
    a [Uint8Array] is a list of integers whose stores wrap modulo 256, and
    the [Map] of sessions is a finite map. *)

From Stdlib Require Import ZArith NArith Lia List Bool.
From Stdlib Require Import Floats.SpecFloat Strings.Byte Strings.String Strings.Ascii.
From stdpp Require Import base list gmap.

Local Open Scope Z_scope.

(** ** JavaScript strings *)

(** A JavaScript string is a finite sequence of 16-bit code units. *)
Abbreviation jsstring := (list N).

(** The code units of an ASCII literal. *)
Definition lit (s : string) : jsstring :=
  List.map N_of_ascii (list_ascii_of_string s).

(** [a < b] on strings compares code units lexicographically. *)
Fixpoint str_compare (a b : jsstring) : comparison :=
  match a, b with
  | [], [] => Eq
  | [], _ :: _ => Lt
  | _ :: _, [] => Gt
  | x :: a', y :: b' =>
      match N.compare x y with
      | Eq => str_compare a' b'
      | c => c
      end
  end.

Definition str_eqb (a b : jsstring) : bool :=
  match str_compare a b with Eq => true | _ => false end.

(** [String.prototype.slice(start, end)] for non-negative arguments. *)
Definition str_slice (s : jsstring) (start stop : nat) : jsstring :=
  take (stop - start)%nat (drop start s).

(** [String.prototype.slice(start)] for a non-negative argument. *)
Definition str_slice_from (s : jsstring) (start : nat) : jsstring :=
  drop start s.

(** [String.prototype.padStart(targetLength, "0")]. *)
Definition padStart (targetLength : nat) (s : jsstring) : jsstring :=
  replicate (targetLength - length s)%nat 48%N ++ s.

(** [Array.prototype.join(sep)] on an array of strings. *)
Fixpoint join (sep : jsstring) (parts : list jsstring) : jsstring :=
  match parts with
  | [] => []
  | [p] => p
  | p :: rest => p ++ sep ++ join sep rest
  end.

(** ** JavaScript numbers *)

(** Numbers are binary64 values: 53 bits of precision, exponent bound 1024. *)
Definition prec : Z := 53.
Definition emax : Z := 1024.
Abbreviation Number := spec_float.

(** The number denoted by an integer literal or an integral time value
    (rounded to nearest-even when it does not fit 53 bits). *)
Definition num_of_Z (z : Z) : Number := binary_normalize prec emax z 0 false.

Definition js_div (x y : Number) : Number := SFdiv prec emax x y.
Definition js_add (x y : Number) : Number := SFadd prec emax x y.
Definition js_lt (x y : Number) : bool := SFltb x y.
Definition js_gt (x y : Number) : bool := SFltb y x.
Definition js_strict_eq (x y : Number) : bool := SFeqb x y.
Definition js_isNaN (x : Number) : bool :=
  match x with S754_nan => true | _ => false end.

(** [2 ** k]: an exact power of two. *)
Definition js_pow2 (k : Z) : Number := num_of_Z (2 ^ k).

(** The integer part of a number (truncation toward zero); NaN and the
    infinities give 0, as in the abstract operation ToInt32. *)
Definition truncate (x : Number) : Z :=
  match x with
  | S754_finite s m e =>
      let mag := Z.shiftl (Zpos m) e in
      if s then - mag else mag
  | _ => 0
  end.

(** Reduction of an integer to the signed 32-bit range. *)
Definition int32_wrap (z : Z) : Z := (z + 2 ^ 31) mod 2 ^ 32 - 2 ^ 31.

Definition ToInt32 (x : Number) : Z := int32_wrap (truncate x).

(** [a & b] and [a | b] on operands already converted to integers. *)
Definition bit_and (a b : Z) : Z := Z.land (int32_wrap a) (int32_wrap b).
Definition bit_or (a b : Z) : Z := Z.lor (int32_wrap a) (int32_wrap b).

(** ** Typed arrays *)

(** [new Uint8Array(n)]. *)
Definition Uint8Array (n : nat) : list Z := replicate n 0.

(** [bytes[i] = v]: the stored value is [v] modulo 256; an index out of
    range is ignored. *)
Definition u8_store (bytes : list Z) (i : nat) (v : Z) : list Z :=
  <[i := v mod 256]> bytes.

(** [bytes[i]!] *)
Definition u8_get (bytes : list Z) (i : nat) : Z := default 0 (bytes !! i).

(** [bytes.set(src, offset)] *)
Fixpoint u8_set (bytes : list Z) (src : list Z) (offset : nat) : list Z :=
  match src with
  | [] => bytes
  | x :: rest => u8_set (u8_store bytes offset x) rest (S offset)
  end.

(** ** Hexadecimal rendering *)

(** The digit character of a value below 16, lowercase. *)
Definition hex_digit (d : Z) : N :=
  if d <? 10 then Z.to_N (48 + d) else Z.to_N (87 + d).

Fixpoint toString16_aux (fuel : nat) (n : Z) (acc : jsstring) : jsstring :=
  match fuel with
  | O => acc
  | S f =>
      let acc' := hex_digit (n mod 16) :: acc in
      if n / 16 =? 0 then acc' else toString16_aux f (n / 16) acc'
  end.

(** [b.toString(16)] for a non-negative integer [b]. *)
Definition toString16 (b : Z) : jsstring :=
  toString16_aux (S (Z.to_nat (Z.log2 b))) b [].

(** The decimal rendering of a non-negative integer (template literals). *)
Fixpoint toString10_aux (fuel : nat) (n : Z) (acc : jsstring) : jsstring :=
  match fuel with
  | O => acc
  | S f =>
      let acc' := Z.to_N (48 + n mod 10) :: acc in
      if n / 10 =? 0 then acc' else toString10_aux f (n / 10) acc'
  end.

Definition toString10 (n : Z) : jsstring :=
  toString10_aux (S (Z.to_nat (Z.log2 n))) n [].

(** ** The process state of [server.ts] *)

(** [z.enum(["v4", "v7"])] *)
Inductive Version := v4 | v7.

Definition version_string (ver : Version) : jsstring :=
  match ver with v4 => lit "v4" | v7 => lit "v7" end.

(** The string [new Date(ms).toISOString()], kept as the time value it
    renders. *)
Inductive IsoString := toISOString (ms : Z).

(** An element of [uuidHistory]. *)
Record HistoryRecord := {
  uuid : jsstring;
  version : Version;
  createdAt : IsoString
}.

(** The state a handler can observe or change: the module-level array
    [uuidHistory] (declared once per process, outside [createUuidServer]),
    the system clock and the random source.  [clock w k] is the value of
    the [k]-th clock reading and [entropy w k] the [k]-th random octet. *)
Record World := {
  uuidHistory : list HistoryRecord;
  clock : nat -> Z;
  clock_reads : nat;
  entropy : nat -> byte;
  entropy_used : nat
}.

Definition set_history (h : list HistoryRecord) (w : World) : World :=
  {| uuidHistory := h; clock := clock w; clock_reads := clock_reads w;
     entropy := entropy w; entropy_used := entropy_used w |}.

Definition tick (w : World) : World :=
  {| uuidHistory := uuidHistory w; clock := clock w;
     clock_reads := S (clock_reads w);
     entropy := entropy w; entropy_used := entropy_used w |}.

Definition consume (n : nat) (w : World) : World :=
  {| uuidHistory := uuidHistory w; clock := clock w;
     clock_reads := clock_reads w;
     entropy := entropy w; entropy_used := (entropy_used w + n)%nat |}.

(** A computation that reads and updates the world. *)
Definition M (A : Type) : Type := World -> A * World.

(** [Date.now()] *)
Definition Date_now : M Number :=
  fun w => (num_of_Z (clock w (clock_reads w)), tick w).

(** [new Date().toISOString()] *)
Definition new_Date_toISOString : M IsoString :=
  fun w => (toISOString (clock w (clock_reads w)), tick w).

(** [randomBytes(n)]: the next [n] octets of the random source. *)
Definition randomBytes (n : nat) : M (list Z) :=
  fun w =>
    (List.map (fun k => Z.of_N (Byte.to_N (entropy w (entropy_used w + k)%nat)))
       (seq 0 n),
     consume n w).

(** [uuidHistory.push(r)] *)
Definition history_push (r : HistoryRecord) (w : World) : World :=
  set_history (uuidHistory w ++ [r]) w.

(** [while (uuidHistory.length > 100) uuidHistory.shift()] *)
Fixpoint history_trim (h : list HistoryRecord) : list HistoryRecord :=
  match h with
  | [] => []
  | _ :: rest => if (100 <? length h)%nat then history_trim rest else h
  end.

(** ** Identifier generation *)

(** The hexadecimal string of 16 octets split 8-4-4-4-12
    ([generateUuidV7], the last two statements). *)
Definition uuid_format (bytes : list Z) : jsstring :=
  let hex := concat (List.map (fun b => padStart 2 (toString16 b)) bytes) in
  str_slice hex 0 8 ++ lit "-" ++ str_slice hex 8 12 ++ lit "-" ++
  str_slice hex 12 16 ++ lit "-" ++ str_slice hex 16 20 ++ lit "-" ++
  str_slice_from hex 20.

(** The 16 octets [generateUuidV7] builds from the time value and the ten
    random octets. *)
Definition uuidV7_bytes (timestamp : Number) (randomPart : list Z) : list Z :=
  let bytes := Uint8Array 16 in
  let bytes := u8_store bytes 0 (bit_and (truncate (js_div timestamp (js_pow2 40))) 255) in
  let bytes := u8_store bytes 1 (bit_and (truncate (js_div timestamp (js_pow2 32))) 255) in
  let bytes := u8_store bytes 2 (bit_and (truncate (js_div timestamp (js_pow2 24))) 255) in
  let bytes := u8_store bytes 3 (bit_and (truncate (js_div timestamp (js_pow2 16))) 255) in
  let bytes := u8_store bytes 4 (bit_and (truncate (js_div timestamp (js_pow2 8))) 255) in
  let bytes := u8_store bytes 5 (bit_and (truncate timestamp) 255) in
  let bytes := u8_set bytes randomPart 6 in
  let bytes := u8_store bytes 6 (bit_or (bit_and (u8_get bytes 6) 15) 112) in
  let bytes := u8_store bytes 8 (bit_or (bit_and (u8_get bytes 8) 63) 128) in
  bytes.

Definition generateUuidV7 : M jsstring :=
  fun w =>
    let '(timestamp, w1) := Date_now w in
    let '(randomPart, w2) := randomBytes 10 w1 in
    (uuid_format (uuidV7_bytes timestamp randomPart), w2).

(** Modelled from the spec: [randomUUID] is the built-in of [node:crypto],
    whose body is not part of the repository.  Section 4.1: fill 16 bytes
    from the random source, then force the version and variant marker bits
    (version 4, variant 10), and format as the canonical string. *)
Definition randomUUID : M jsstring :=
  fun w =>
    let '(bytes, w1) := randomBytes 16 w in
    let bytes := u8_store bytes 6 (bit_or (bit_and (u8_get bytes 6) 15) 64) in
    let bytes := u8_store bytes 8 (bit_or (bit_and (u8_get bytes 8) 63) 128) in
    (uuid_format bytes, w1).

(** ** The [generate_uuid] tool *)

(** One iteration of the [for] loop of the handler, on the pair of the
    local [uuids] and the world: generate, push to [uuids], push a record
    stamped with a fresh clock reading to [uuidHistory]. *)
Definition generate_step (ver : Version) (st : list jsstring * World)
    : list jsstring * World :=
  let '(uuids, w) := st in
  let '(u, w1) := match ver with
                  | v7 => generateUuidV7 w
                  | v4 => randomUUID w
                  end in
  let '(now, w2) := new_Date_toISOString w1 in
  (uuids ++ [u], history_push {| uuid := u; version := ver; createdAt := now |} w2).

(** The [for] loop of the handler.  The counter [i] and the bound [count]
    are numbers; [fuel] bounds the iterations and [None] means it ran out. *)
Fixpoint generate_loop (fuel : nat) (ver : Version) (count i : Number)
    (st : list jsstring * World) : option (list jsstring * World) :=
  match fuel with
  | O => None
  | S fuel' =>
      if js_lt i count then
        generate_loop fuel' ver count (js_add i (num_of_Z 1)) (generate_step ver st)
      else Some st
  end.

(** The handler up to its [return]: the identifiers generated and the
    world after the history was trimmed. *)
Definition generate_uuid_body (fuel : nat) (ver : Version) (count : Number)
    (w : World) : option (list jsstring * World) :=
  match generate_loop fuel ver count (num_of_Z 0) ([], w) with
  | None => None
  | Some (uuids, w1) =>
      Some (uuids, set_history (history_trim (uuidHistory w1)) w1)
  end.

(** The text of the [return] statement. *)
Definition generate_text (ver : Version) (count : Number)
    (uuids : list jsstring) : jsstring :=
  let header :=
    [29983; 25104; 12373; 12428; 12383]%N ++ lit "UUID (" ++
    version_string ver ++ lit "):" in
  if js_strict_eq count (num_of_Z 1) then
    header ++ lit " " ++ default (lit "undefined") (uuids !! 0%nat)
  else
    header ++ [10%N] ++
    join [10%N]
      (imap (fun i u => toString10 (Z.of_nat i + 1) ++ lit ". " ++ u) uuids).

Definition generate_uuid (fuel : nat) (ver : Version) (count : Number)
    (w : World) : option (jsstring * World) :=
  match generate_uuid_body fuel ver count w with
  | None => None
  | Some (uuids, w') => Some (generate_text ver count uuids, w')
  end.

(** ** The [validate_uuid] tool *)

(** The fragment of regular expressions the pattern of the handler uses:
    character classes of ranges and single characters, literal characters
    and exact repetition counts, between the anchors [^] and [$]. *)
Inductive ClassAtom :=
  | ClassRange (lo hi : N)
  | ClassChar (c : N).

Inductive RegexTerm :=
  | Class (atoms : list ClassAtom) (times : nat)
  | Char (c : N).

(** Case folding of the [i] flag (without the [u] flag): a code unit is
    compared through its upper-case form.  Only the ASCII letters are
    folded here: the language definition never folds a code unit of value
    128 or more to one below 128, so such a unit cannot meet the members
    of an ASCII class. *)
Definition canonicalize (ch : N) : N :=
  if ((97 <=? ch) && (ch <=? 122))%N then (ch - 32)%N else ch.

(** The members of a class atom. *)
Definition atom_members (a : ClassAtom) : list N :=
  match a with
  | ClassRange lo hi => List.map (fun k => (lo + N.of_nat k)%N) (seq 0 (N.to_nat (hi + 1 - lo)))
  | ClassChar c => [c]
  end.

(** A class matches [ch] when one of its members folds to the same unit. *)
Definition class_matches (atoms : list ClassAtom) (ch : N) : bool :=
  existsb
    (fun a => existsb (fun c => (canonicalize c =? canonicalize ch)%N) (atom_members a))
    atoms.

Definition char_matches (c ch : N) : bool :=
  (canonicalize c =? canonicalize ch)%N.

(** Consume [times] units, each in the class. *)
Fixpoint match_class (atoms : list ClassAtom) (times : nat) (s : jsstring)
    : option jsstring :=
  match times with
  | O => Some s
  | S n =>
      match s with
      | ch :: rest => if class_matches atoms ch then match_class atoms n rest else None
      | [] => None
      end
  end.

(** [pattern.test(s)] for an anchored pattern: the terms consume the
    whole input. *)
Fixpoint regex_test (pattern : list RegexTerm) (s : jsstring) : bool :=
  match pattern with
  | [] => match s with [] => true | _ => false end
  | Class atoms times :: rest =>
      match match_class atoms times s with
      | Some s' => regex_test rest s'
      | None => false
      end
  | Char c :: rest =>
      match s with
      | ch :: s' => if char_matches c ch then regex_test rest s' else false
      | [] => false
      end
  end.

Definition hex_class : list ClassAtom := [ClassRange 48 57; ClassRange 97 102].

(** [/^[0-9a-f]{8}-[0-9a-f]{4}-[1-7][0-9a-f]{3}-[89ab][0-9a-f]{3}-[0-9a-f]{12}$/i] *)
Definition uuidPattern : list RegexTerm :=
  [ Class hex_class 8; Char 45;
    Class hex_class 4; Char 45;
    Class [ClassRange 49 55] 1; Class hex_class 3; Char 45;
    Class [ClassChar 56; ClassChar 57; ClassChar 97; ClassChar 98] 1;
    Class hex_class 3; Char 45;
    Class hex_class 12 ].

(** The two locals of the handler: [isValid] and [version]. *)
Definition validate_uuid_check (u : jsstring) : bool * option jsstring :=
  let isValid := regex_test uuidPattern u in
  let ver :=
    if isValid then
      match u !! 14%nat with
      | Some versionChar => Some (lit "v" ++ [versionChar])
      | None => None
      end
    else None in
  (isValid, ver).

(** The text the handler returns. *)
Definition validate_uuid (u : jsstring) : jsstring :=
  let '(isValid, ver) := validate_uuid_check u in
  if isValid then
    [9989; 32; 26377; 21177; 12394; 85; 85; 73; 68; 12391; 12377; 65288;
     12496; 12540; 12472; 12519; 12531; 58; 32]%N ++
    default (lit "null") ver ++ [65289%N]
  else
    [10060; 32; 28961; 21177; 12394; 85; 85; 73; 68; 24418; 24335; 12391;
     12377; 58; 32]%N ++ u.

(** ** The [uuid://history] resource *)

(** [Array.prototype.slice(start)]: a negative [start] counts from the end. *)
Definition array_slice_from {A : Type} (l : list A) (start : Z) : list A :=
  let len := Z.of_nat (length l) in
  let k := if start <? 0 then Z.max (len + start) 0 else Z.min start len in
  drop (Z.to_nat k) l.

(** The object the handler serialises. *)
Record HistoryView := {
  totalCount : nat;
  history : list HistoryRecord
}.

Definition uuid_history (w : World) : HistoryView :=
  {| totalCount := length (uuidHistory w);
     history := array_slice_from (uuidHistory w) (-20) |}.

(** ** Input schemas and the dispatcher *)

(** The values a decoded JSON argument can take. *)
Inductive JsValue :=
  | JsUndefined
  | JsNull
  | JsBoolean (b : bool)
  | JsNumber (x : Number)
  | JsString (s : jsstring).

(** A decoded JSON object; an absent property reads as [undefined]. *)
Abbreviation JsObject := (list (jsstring * JsValue)).

Fixpoint get_prop (o : JsObject) (key : jsstring) : JsValue :=
  match o with
  | [] => JsUndefined
  | (k, v) :: rest => if str_eqb k key then v else get_prop rest key
  end.

(** Modelled from the spec: the schema library [zod] is not part of the
    repository.  Section 4.4: apply declared defaults for missing fields,
    reject a field that violates its type, range or enum constraint.
    This is [z.enum(["v4", "v7"]).default("v4")]. *)
Definition schema_version (v : JsValue) : option Version :=
  match v with
  | JsUndefined => Some v4
  | JsString s =>
      if str_eqb s (lit "v4") then Some v4
      else if str_eqb s (lit "v7") then Some v7
      else None
  | _ => None
  end.

(** Modelled from the spec: [z.number().min(1).max(10).default(1)] as the
    source declares it: a number that is not NaN, not below 1 and not
    above 10; there is no integrality check in the declaration. *)
Definition schema_count (v : JsValue) : option Number :=
  match v with
  | JsUndefined => Some (num_of_Z 1)
  | JsNumber x =>
      if js_isNaN x then None
      else if js_lt x (num_of_Z 1) then None
      else if js_gt x (num_of_Z 10) then None
      else Some x
  | _ => None
  end.

(** [z.string()] *)
Definition schema_string (v : JsValue) : option jsstring :=
  match v with
  | JsString s => Some s
  | _ => None
  end.

(** The JSON-RPC failure codes of section 6. *)
Definition MethodNotFound : Z := -32601.
Definition InvalidParams : Z := -32602.
Definition InvalidRequest : Z := -32600.
Definition InvalidSession : Z := -32000.

(** The decoded body of a request. *)
Inductive RpcRequest :=
  | initialize
  | tools_call (name : jsstring) (arguments : JsObject)
  | resources_read (uri : jsstring)
  | other_method (method : jsstring).

Inductive RpcResponse :=
  | result_initialize
  | result_text (text : jsstring)
  | result_resource (view : HistoryView)
  | rpc_error (code : Z).

(** What [createUuidServer] registers: two tools and one resource.  The
    handlers close over the module-level [uuidHistory], so the instance
    itself carries no history. *)
Record McpServer := {
  server_name : jsstring;
  tools : list jsstring;
  resources : list jsstring
}.

Definition createUuidServer : McpServer :=
  {| server_name := lit "uuid-mcp";
     tools := [lit "generate_uuid"; lit "validate_uuid"];
     resources := [lit "uuid://history"] |}.

Definition registered (name : jsstring) (names : list jsstring) : bool :=
  existsb (str_eqb name) names.

(** Modelled from the spec: the dispatcher [McpServer] of the SDK is not
    part of the repository.  Section 4.4: resolve the action name
    ([MethodNotFound] if absent), validate the arguments against the input
    schema ([InvalidParams] on a violation, before the handler runs), then
    invoke the handler; a resource is resolved by its exact URI. *)
Definition server_handle (fuel : nat) (server : McpServer) (req : RpcRequest)
    (w : World) : option (RpcResponse * World) :=
  match req with
  | initialize => Some (result_initialize, w)
  | tools_call name args =>
      if negb (registered name (tools server)) then Some (rpc_error MethodNotFound, w)
      else if str_eqb name (lit "generate_uuid") then
        match schema_version (get_prop args (lit "version")),
              schema_count (get_prop args (lit "count")) with
        | Some ver, Some count =>
            match generate_uuid fuel ver count w with
            | Some (text, w') => Some (result_text text, w')
            | None => None
            end
        | _, _ => Some (rpc_error InvalidParams, w)
        end
      else
        match schema_string (get_prop args (lit "uuid")) with
        | Some u => Some (result_text (validate_uuid u), w)
        | None => Some (rpc_error InvalidParams, w)
        end
  | resources_read uri =>
      if registered uri (resources server) then
        Some (result_resource (uuid_history w), w)
      else Some (rpc_error MethodNotFound, w)
  | other_method _ => Some (rpc_error MethodNotFound, w)
  end.

(** ** The HTTP transport of [index.ts] *)

(** A [StreamableHTTPServerTransport] with the server connected to it. *)
Record Transport := {
  transport_sessionId : option jsstring;
  transport_server : McpServer
}.

(** The state of [startHttpServer]: the [sessions] map, and the world the
    handlers of every server instance act on. *)
Record HttpState := {
  sessions : gmap jsstring Transport;
  world : World
}.

(** A [POST /mcp] request: the [mcp-session-id] header and the body. *)
Record HttpRequest := {
  mcp_session_id : option jsstring;
  body : RpcRequest
}.

Inductive HttpResponse :=
  | http_error (status : Z) (code : Z) (message : jsstring)
  | http_ok (session : option jsstring) (r : RpcResponse).

(** Truthiness of a [string | undefined]: [undefined] and the empty string
    are falsy. *)
Definition truthy (s : option jsstring) : bool :=
  match s with
  | Some (_ :: _) => true
  | _ => false
  end.

(** [sessions.get(sessionId)] *)
Definition sessions_get (m : gmap jsstring Transport) (sessionId : option jsstring)
    : option Transport :=
  match sessionId with
  | Some s => m !! s
  | None => None
  end.

(** [sessions.has(sessionId)] *)
Definition sessions_has (m : gmap jsstring Transport) (sessionId : option jsstring)
    : bool :=
  match sessions_get m sessionId with
  | Some _ => true
  | None => false
  end.

(** [isInitializeRequest(req.body)] *)
Definition isInitializeRequest (b : RpcRequest) : bool :=
  match b with
  | initialize => true
  | _ => false
  end.

(** Modelled from the spec: [transport.handleRequest] belongs to the SDK.
    Section 4.5: a handshake on a fresh transport mints a token (the
    [sessionIdGenerator] of the source, [randomUUID]) and runs
    [onsessioninitialized], which stores the transport under the token;
    a request on an active transport is routed to its dispatcher and
    leaves the map unchanged. *)
Definition handleRequest (fuel : nat) (transport : Transport) (req : RpcRequest)
    (st : HttpState) : option (HttpResponse * HttpState) :=
  match transport_sessionId transport with
  | None =>
      if isInitializeRequest req then
        let '(id, w1) := randomUUID (world st) in
        let transport' :=
          {| transport_sessionId := Some id;
             transport_server := transport_server transport |} in
        Some (http_ok (Some id) result_initialize,
              {| sessions := <[id := transport']> (sessions st); world := w1 |})
      else Some (http_error 400 InvalidRequest (lit "Bad Request: Server not initialized"), st)
  | Some id =>
      if isInitializeRequest req then
        Some (http_error 400 InvalidRequest (lit "Invalid Request: Server already initialized"), st)
      else
        match server_handle fuel (transport_server transport) req (world st) with
        | Some (r, w') =>
            Some (http_ok (Some id) r, {| sessions := sessions st; world := w' |})
        | None => None
        end
  end.

(** [app.post("/mcp", ...)] *)
Definition post_mcp (fuel : nat) (req : HttpRequest) (st : HttpState)
    : option (HttpResponse * HttpState) :=
  let sessionId := mcp_session_id req in
  if truthy sessionId && sessions_has (sessions st) sessionId then
    match sessions_get (sessions st) sessionId with
    | Some transport => handleRequest fuel transport (body req) st
    | None => None
    end
  else if negb (truthy sessionId) && isInitializeRequest (body req) then
    let transport :=
      {| transport_sessionId := None; transport_server := createUuidServer |} in
    handleRequest fuel transport (body req) st
  else
    Some (http_error 400 InvalidSession
            (lit "Invalid session. Send initialize request first."), st).

(** A sequence of requests, each handled to completion before the next. *)
Fixpoint post_all (fuel : nat) (reqs : list HttpRequest) (st : HttpState)
    : option (list HttpResponse * HttpState) :=
  match reqs with
  | [] => Some ([], st)
  | req :: rest =>
      match post_mcp fuel req st with
      | None => None
      | Some (r, st1) =>
          match post_all fuel rest st1 with
          | None => None
          | Some (rs, st2) => Some (r :: rs, st2)
          end
      end
  end.

(** ** Sequences of tool calls *)

(** The [generate_uuid] handler run once per element of [calls], each call
    to completion before the next; the result lists the identifiers every
    call generated. *)
Fixpoint generate_calls (fuel : nat) (calls : list (Version * Number)) (w : World)
    : option (list (list jsstring) * World) :=
  match calls with
  | [] => Some ([], w)
  | (ver, count) :: rest =>
      match generate_uuid_body fuel ver count w with
      | None => None
      | Some (uuids, w1) =>
          match generate_calls fuel rest w1 with
          | None => None
          | Some (outs, w2) => Some (uuids :: outs, w2)
          end
      end
  end.

(** ** The vocabulary of the specification *)

(** The value of a hexadecimal digit, in either case. *)
Definition hex_value (c : N) : option N :=
  if ((48 <=? c) && (c <=? 57))%N then Some (c - 48)%N
  else if ((97 <=? c) && (c <=? 102))%N then Some (c - 87)%N
  else if ((65 <=? c) && (c <=? 70))%N then Some (c - 55)%N
  else None.

(** The canonical grammar in the words of section 4.1, position by
    position: hyphens at the fixed positions, hexadecimal digits elsewhere,
    the version nibble in 1..7, the top two bits of the variant nibble
    equal to 10. *)
Definition hyphen_position (i : nat) : bool :=
  existsb (Nat.eqb i) [8; 13; 18; 23]%nat.

Definition grammar_position (i : nat) (c : N) : bool :=
  if hyphen_position i then (c =? 45)%N
  else
    match hex_value c with
    | None => false
    | Some v =>
        if (i =? 14)%nat then ((1 <=? v) && (v <=? 7))%N
        else if (i =? 19)%nat then (N.shiftr v 2 =? 2)%N
        else true
    end.

Definition canonical_grammar (s : jsstring) : bool :=
  (length s =? 36)%nat && forallb (fun b : bool => b) (imap grammar_position s).

(** The canonical rendering: 8-4-4-4-12 groups of lowercase hexadecimal
    digits separated by hyphens. *)
Definition is_lower_hex (c : N) : bool :=
  (((48 <=? c) && (c <=? 57)) || ((97 <=? c) && (c <=? 102)))%N.

Definition lowercase_position (i : nat) (c : N) : bool :=
  if hyphen_position i then (c =? 45)%N else is_lower_hex c.

Definition canonical_lowercase (s : jsstring) : bool :=
  (length s =? 36)%nat && forallb (fun b : bool => b) (imap lowercase_position s).

(** The integer a sequence of octets denotes, most significant first. *)
Definition be_value (bytes : list Z) : Z :=
  fold_left (fun acc b => acc * 256 + b) bytes 0.

(** An octet. *)
Definition is_octet (b : Z) : Prop := 0 <= b < 256.

(** The index of the clock reading stored in the [i]-th record of a call
    that starts after [r] readings: [generateUuidV7] reads the clock once
    before the record is stamped, [randomUUID] does not. *)
Definition stamp_index (ver : Version) (r i : nat) : nat :=
  match ver with
  | v4 => (r + i)%nat
  | v7 => (r + 2 * i + 1)%nat
  end.

(** The version number a variant writes into the identifier. *)
Definition version_number (ver : Version) : Z :=
  match ver with v4 => 4 | v7 => 7 end.

(** Sixteen octets carrying the marker bits: version nibble [v] in the
    high half of octet 6, variant bits 10 at the top of octet 8. *)
Definition marked_octets (v : Z) (bytes : list Z) : Prop :=
  length bytes = 16%nat /\ Forall is_octet bytes /\
  (exists b6, bytes !! 6%nat = Some b6 /\ Z.shiftr b6 4 = v) /\
  (exists b8, bytes !! 8%nat = Some b8 /\ Z.shiftr b8 6 = 2).

(** An identifier a variant can generate: the rendering of marked octets. *)
Definition generated_by (ver : Version) (u : jsstring) : Prop :=
  exists bytes, u = uuid_format bytes /\ marked_octets (version_number ver) bytes.

(** The clock readings one iteration of the loop makes. *)
Definition reads_per_step (ver : Version) : nat :=
  match ver with v4 => 1%nat | v7 => 2%nat end.

(** The last 100 elements of a list. *)
Definition last100 {A : Type} (l : list A) : list A :=
  drop (length l - 100)%nat l.

(** ** Proof vocabulary *)

(** The six octets [generateUuidV7] stores the time value in. *)
Definition stamp_octet (timestamp : Number) (k : nat) : Z :=
  match k with
  | 0%nat => bit_and (truncate (js_div timestamp (js_pow2 40))) 255 mod 256
  | 1%nat => bit_and (truncate (js_div timestamp (js_pow2 32))) 255 mod 256
  | 2%nat => bit_and (truncate (js_div timestamp (js_pow2 24))) 255 mod 256
  | 3%nat => bit_and (truncate (js_div timestamp (js_pow2 16))) 255 mod 256
  | 4%nat => bit_and (truncate (js_div timestamp (js_pow2 8))) 255 mod 256
  | _ => bit_and (truncate timestamp) 255 mod 256
  end.

(** The two digits of an octet. *)
Definition hi (b : Z) : N := hex_digit (b / 16).
Definition lo (b : Z) : N := hex_digit (b mod 16).

(** An anchored pattern of fixed repetitions tests one unit per position. *)
Fixpoint pattern_positions (pattern : list RegexTerm) : list (N -> bool) :=
  match pattern with
  | [] => []
  | Class atoms times :: rest =>
      replicate times (class_matches atoms) ++ pattern_positions rest
  | Char c :: rest => char_matches c :: pattern_positions rest
  end.

Fixpoint all_match (tests : list (N -> bool)) (s : jsstring) : bool :=
  match tests, s with
  | [], [] => true
  | f :: tests', ch :: s' => f ch && all_match tests' s'
  | _, _ => false
  end.

(** A pattern all of whose members fold to a unit below 128. *)
Definition ascii_term (t : RegexTerm) : bool :=
  match t with
  | Class atoms _ =>
      forallb (fun a => forallb (fun m => (canonicalize m <? 128)%N) (atom_members a)) atoms
  | Char c => (canonicalize c <? 128)%N
  end.

(** The message of the rejection in [POST /mcp]. *)
Definition invalid_session_text : jsstring :=
  lit "Invalid session. Send initialize request first.".

(** ** Well-formed session maps *)

(** Every stored transport was registered under its own token: the only
    writer of the map is [onsessioninitialized], called with the token the
    transport has just been given. *)
Definition sessions_wf (m : gmap jsstring Transport) : Prop :=
  forall id t, m !! id = Some t -> transport_sessionId t = Some id.

(** What a client sees of a response: the token a handshake returned, and
    the record count a history read returned. *)
Definition minted_token (r : HttpResponse) : option jsstring :=
  match r with
  | http_ok (Some id) result_initialize => Some id
  | _ => None
  end.

Definition observed_count (r : HttpResponse) : option nat :=
  match r with
  | http_ok _ (result_resource v) => Some (totalCount v)
  | _ => None
  end.

(** ** The other routes of [index.ts] *)

(** The responses of [GET /mcp], [DELETE /mcp] and [GET /health]. *)
Inductive RouteResponse :=
  | route_error (status : Z) (code : Z) (message : jsstring)
  | route_stream (session : jsstring)
  | route_closed (session : jsstring)
  | route_health (activeSessions : nat).

(** [transport.onclose]: the entry of a closing transport is deleted when
    the transport has a (truthy) session id. *)
Definition transport_onclose (transport : Transport)
    (m : gmap jsstring Transport) : gmap jsstring Transport :=
  match transport_sessionId transport with
  | Some id => if truthy (Some id) then delete id m else m
  | None => m
  end.

(** [onsessionclosed]: [sessions.delete(id)]. *)
Definition onsessionclosed (id : jsstring)
    (m : gmap jsstring Transport) : gmap jsstring Transport :=
  delete id m.

(** [app.get("/mcp", ...)].  Modelled from the spec: what the SDK
    transport does with a GET is not part of the repository; section 6:
    it opens a server-push channel scoped to the existing session. *)
Definition get_mcp (sessionId : option jsstring) (st : HttpState)
    : RouteResponse * HttpState :=
  match sessions_get (sessions st) sessionId with
  | Some transport =>
      (match transport_sessionId transport with
       | Some id => route_stream id
       | None => route_error 400 InvalidRequest (lit "Bad Request: Server not initialized")
       end, st)
  | None => (route_error 400 InvalidSession (lit "Invalid session"), st)
  end.

(** [app.delete("/mcp", ...)].  Modelled from the spec: the SDK transport
    answers a DELETE on an active session by running [onsessionclosed] and
    closing itself, which runs [onclose] (section 4.5: on closure the
    entry is removed immediately). *)
Definition delete_mcp (sessionId : option jsstring) (st : HttpState)
    : RouteResponse * HttpState :=
  match sessions_get (sessions st) sessionId with
  | Some transport =>
      match transport_sessionId transport with
      | Some id =>
          (route_closed id,
           {| sessions := transport_onclose transport (onsessionclosed id (sessions st));
              world := world st |})
      | None =>
          (route_error 400 InvalidRequest (lit "Bad Request: Server not initialized"), st)
      end
  | None => (route_error 400 InvalidSession (lit "Invalid session"), st)
  end.

(** [app.get("/health", ...)]: [activeSessions: sessions.size]. *)
Definition get_health (st : HttpState) : RouteResponse :=
  route_health (size (sessions st)).

(** The requests of a client, over the four routes. *)
Inductive ClientRequest :=
  | POST (req : HttpRequest)
  | GET (sessionId : option jsstring)
  | DELETE (sessionId : option jsstring).

(** The state after a request. *)
Definition route_state (fuel : nat) (c : ClientRequest) (st : HttpState)
    : option HttpState :=
  match c with
  | POST req => option_map snd (post_mcp fuel req st)
  | GET sid => Some (snd (get_mcp sid st))
  | DELETE sid => Some (snd (delete_mcp sid st))
  end.

Fixpoint route_all (fuel : nat) (cs : list ClientRequest) (st : HttpState)
    : option HttpState :=
  match cs with
  | [] => Some st
  | c :: rest =>
      match route_state fuel c st with
      | Some st1 => route_all fuel rest st1
      | None => None
      end
  end.

(** The state of [startHttpServer] before the first request. *)
Definition initial_state (w : World) : HttpState :=
  {| sessions := ∅; world := w |}.

(** The map as the routes build it: each transport is stored under its
    own non-empty token and is connected to a server made by
    [createUuidServer]. *)
Definition sessions_ok (m : gmap jsstring Transport) : Prop :=
  forall id t, m !! id = Some t ->
    transport_sessionId t = Some id /\
    transport_server t = createUuidServer /\
    truthy (Some id) = true.

(** The handshake request: an [initialize] body and no session header. *)
Definition handshake : HttpRequest :=
  {| mcp_session_id := None; body := initialize |}.

(** A read of the history resource through a session. *)
Definition read_history (id : jsstring) : HttpRequest :=
  {| mcp_session_id := Some id;
     body := resources_read (lit "uuid://history") |}.

(** A [generate_uuid] call through a session. *)
Definition call_generate (id : jsstring) (args : JsObject) : HttpRequest :=
  {| mcp_session_id := Some id;
     body := tools_call (lit "generate_uuid") args |}.

(** Changing the case of the ASCII letters of a string. *)
Definition ascii_upper (c : N) : N :=
  if ((97 <=? c) && (c <=? 122))%N then (c - 32)%N else c.

Definition ascii_lower (c : N) : N :=
  if ((65 <=? c) && (c <=? 90))%N then (c + 32)%N else c.

(** ** The command line of [index.ts] *)

(** [s.startsWith(prefix)] *)
Definition startsWith (s prefix : jsstring) : bool :=
  str_eqb (take (length prefix) s) prefix.

(** [args.find(p)] *)
Fixpoint array_find {A : Type} (p : A -> bool) (l : list A) : option A :=
  match l with
  | [] => None
  | x :: rest => if p x then Some x else array_find p rest
  end.

(** [args.includes(x)] *)
Definition array_includes (l : list jsstring) (x : jsstring) : bool :=
  existsb (str_eqb x) l.

(** [s.split(sep)] for a separator of one code unit. *)
Fixpoint str_split (sep : N) (s : jsstring) : list jsstring :=
  match s with
  | [] => [[]]
  | c :: rest =>
      if (c =? sep)%N then [] :: str_split sep rest
      else match str_split sep rest with
           | p :: ps => (c :: p) :: ps
           | [] => [[c]]
           end
  end.

(** White space and line terminators, the units [parseInt] skips. *)
Definition is_whitespace (c : N) : bool :=
  existsb (N.eqb c)
    [9; 10; 11; 12; 13; 32; 160; 5760; 8192; 8193; 8194; 8195; 8196; 8197;
     8198; 8199; 8200; 8201; 8202; 8232; 8233; 8239; 8287; 12288; 65279]%N.

Fixpoint trim_start (s : jsstring) : jsstring :=
  match s with
  | c :: rest => if is_whitespace c then trim_start rest else s
  | [] => []
  end.

Definition decimal_value (c : N) : option Z :=
  if ((48 <=? c) && (c <=? 57))%N then Some (Z.of_N c - 48) else None.

(** The value of the longest prefix of decimal digits; [acc] is [None]
    until a digit was read. *)
Fixpoint parse_digits (s : jsstring) (acc : option Z) : option Z :=
  match s with
  | c :: rest =>
      match decimal_value c with
      | Some d => parse_digits rest (Some (10 * default 0 acc + d))
      | None => acc
      end
  | [] => acc
  end.

(** [Number.parseInt(s, 10)]: skip leading white space, read a sign, read
    the digits; NaN when there is no digit.  The value is rounded to the
    nearest double. *)
Definition parseInt10 (s : jsstring) : Number :=
  let s1 := trim_start s in
  let '(negative, s2) :=
    match s1 with
    | 45%N :: rest => (true, rest)
    | 43%N :: rest => (false, rest)
    | _ => (false, s1)
    end in
  match parse_digits s2 None with
  | None => S754_nan
  | Some 0 => S754_zero negative
  | Some z => num_of_Z (if negative then - z else z)
  end.

(** [const useHttp = args.includes("--http")] *)
Definition useHttp (args : list jsstring) : bool :=
  array_includes args (lit "--http").

(** [const port = Number.parseInt(
      args.find((arg) => arg.startsWith("--port="))?.split("=")[1] ?? "3000", 10)] *)
Definition port (args : list jsstring) : Number :=
  let value :=
    match array_find (fun arg => startsWith arg (lit "--port=")) args with
    | Some arg => str_split 61 arg !! 1%nat
    | None => None
    end in
  parseInt10 (default (lit "3000") value).

(** [main]: which transport is started, and on which port. *)
Inductive Mode :=
  | startHttpServer (port : Number)
  | startStdioServer.

Definition main (args : list jsstring) : Mode :=
  if useHttp args then startHttpServer (port args) else startStdioServer.

(** ** Reading the returned text *)

(** The prefix of [s] before the first [sep]. *)
Fixpoint take_until (sep : N) (s : jsstring) : jsstring :=
  match s with
  | [] => []
  | c :: rest => if (c =? sep)%N then [] else c :: take_until sep rest
  end.

(** What follows the last [sep] of [s]; all of [s] when it has none. *)
Definition after_last (sep : N) (s : jsstring) : jsstring :=
  rev (take_until sep (rev s)).

(** The values a summary text lists, as a reader of the text takes them
    (section 4.4: the summary lists each generated value, index-prefixed
    when there are several, un-prefixed when there is one): the last word
    of the only line of a one-line text, and otherwise the last word of
    every line after the header line. *)
Definition listed_values (text : jsstring) : list jsstring :=
  match str_split 10 text with
  | [] => []
  | [line] => [after_last 32 line]
  | _ :: lines => List.map (after_last 32) lines
  end.

(** ** Fixtures for the examples *)

(** A world with an empty history, a clock that advances one millisecond
    per reading and a random stream that changes octet every 16 reads. *)
Definition sample_world : World :=
  {| uuidHistory := [];
     clock := fun k => 1700000000000 + Z.of_nat k;
     clock_reads := 0;
     entropy := fun k => if Nat.even (k / 16) then x3c else xa5;
     entropy_used := 0 |}.

(** Two active sessions over [sample_world]. *)
Definition token_a : jsstring := lit "3c3c3c3c-3c3c-4c3c-bc3c-3c3c3c3c3c3c".
Definition token_b : jsstring := lit "a5a5a5a5-a5a5-45a5-a5a5-a5a5a5a5a5a5".

Definition active_transport (id : jsstring) : Transport :=
  {| transport_sessionId := Some id; transport_server := createUuidServer |}.

Definition two_sessions : HttpState :=
  {| sessions := <[token_a := active_transport token_a]>
                   (<[token_b := active_transport token_b]> ∅);
     world := sample_world |}.

(** * Properties *)

(** ** Numbers: division by a power of two is exact *)

Section DoubleArithmetic.

Lemma digits2_pos_iter m k :
  digits2_pos (Pos.iter xO m k) = (digits2_pos m + k)%positive.
Proof.
  induction k using Pos.peano_ind.
  - simpl. lia.
  - rewrite Pos.iter_succ. simpl. rewrite IHk. lia.
Qed.

Lemma Zpos_iter_xO m k : Zpos (Pos.iter xO m k) = Zpos m * 2 ^ Zpos k.
Proof.
  induction k using Pos.peano_ind.
  - simpl. lia.
  - rewrite Pos.iter_succ.
    change (Zpos (Pos.iter xO m k)~0) with (2 * Zpos (Pos.iter xO m k)).
    rewrite IHk, Pos2Z.inj_succ, Z.pow_succ_r by lia. lia.
Qed.

Lemma digits2_pos_bounds m :
  2 ^ (Zpos (digits2_pos m) - 1) <= Zpos m < 2 ^ Zpos (digits2_pos m).
Proof.
  induction m as [m IH|m IH|]; simpl digits2_pos.
  - rewrite Pos2Z.inj_succ. change (Zpos m~1) with (2 * Zpos m + 1).
    replace (Z.succ (Zpos (digits2_pos m)) - 1)
      with (Z.succ (Zpos (digits2_pos m) - 1)) by lia.
    rewrite !Z.pow_succ_r by lia. lia.
  - rewrite Pos2Z.inj_succ. change (Zpos m~0) with (2 * Zpos m).
    replace (Z.succ (Zpos (digits2_pos m)) - 1)
      with (Z.succ (Zpos (digits2_pos m) - 1)) by lia.
    rewrite !Z.pow_succ_r by lia. lia.
  - simpl. lia.
Qed.

(** Rounding leaves a 53-bit mantissa with an exponent in range alone. *)
Lemma round_aux_normal m e :
  Zpos (digits2_pos m) = 53 -> -1074 <= e <= 971 ->
  binary_round_aux prec emax false (Zpos m) e loc_Exact = S754_finite false m e.
Proof.
  intros Hd He.
  unfold binary_round_aux, shr_fexp, Zdigits2, fexp, SpecFloat.emin, prec, emax.
  rewrite Hd.
  replace (Z.max (53 + e - 53) (3 - 1024 - 53) - e) with 0 by lia.
  cbn [shr shr_record_of_loc shr_m loc_of_shr_record round_nearest_even Zdigits2].
  rewrite Hd.
  replace (Z.max (53 + e - 53) (3 - 1024 - 53) - e) with 0 by lia.
  cbn [shr shr_record_of_loc shr_m].
  replace (e <=? 1024 - 53) with true by (symmetry; apply Z.leb_le; lia).
  reflexivity.
Qed.

(** The double of a positive integer below 2^53 is that integer, held in a
    normalised mantissa. *)
Lemma num_of_Z_pos t :
  0 < t < 2 ^ 53 ->
  exists m e, num_of_Z t = S754_finite false m e /\
    Zpos (digits2_pos m) = 53 /\ -52 <= e <= 0 /\ Zpos m = t * 2 ^ (- e).
Proof.
  intros Ht. destruct t as [|p|p]; try lia.
  unfold num_of_Z, binary_normalize, binary_round.
  pose proof (digits2_pos_bounds p) as Hb.
  assert (Hd : 1 <= Zpos (digits2_pos p) <= 53).
  { split; [lia|].
    destruct (Z_le_gt_dec (Zpos (digits2_pos p)) 53) as [|Hgt]; [assumption|].
    assert (2 ^ 53 <= 2 ^ (Zpos (digits2_pos p) - 1)) by (apply Z.pow_le_mono_r; lia).
    lia. }
  unfold shl_align, fexp, SpecFloat.emin, prec, emax.
  replace (Z.max (Zpos (digits2_pos p) + 0 - 53) (3 - 1024 - 53))
    with (Zpos (digits2_pos p) - 53) by lia.
  rewrite Z.sub_0_r.
  destruct (Zpos (digits2_pos p) - 53) as [|q|q] eqn:Hq; try lia.
  - exists p, 0. split; [|split; [lia|split; [lia|simpl; lia]]].
    apply round_aux_normal; lia.
  - exists (Pos.iter xO p q), (Zneg q).
    split; [|split; [|split; [lia|]]].
    + apply round_aux_normal; [|lia].
      rewrite digits2_pos_iter. lia.
    + rewrite digits2_pos_iter. lia.
    + rewrite Zpos_iter_xO. reflexivity.
Qed.

(** Dividing a normalised double by a power of two only moves the
    exponent. *)
Lemma div_pow2 m e ey :
  Zpos (digits2_pos m) = 53 -> -52 <= e <= 0 -> -52 <= ey <= 0 ->
  js_div (S754_finite false m e) (S754_finite false 4503599627370496 ey)
  = S754_finite false m (e - ey - 52).
Proof.
  intros Hd He Hey.
  unfold js_div, SFdiv, SFdiv_core_binary.
  change (Zdigits2 (Zpos m)) with (Zpos (digits2_pos m)). rewrite Hd.
  change (Zdigits2 4503599627370496) with 53.
  unfold fexp, SpecFloat.emin, prec, emax.
  replace (Z.min (Z.max (53 + e - (53 + ey) - 53) (3 - 1024 - 53)) (e - ey))
    with (e - ey - 53) by lia.
  replace (e - ey - (e - ey - 53)) with 53 by lia.
  cbv beta iota.
  assert (Hdiv : Z.div_eucl (Z.shiftl (Zpos m) 53) 4503599627370496 = (Zpos m~0, 0)).
  { rewrite Z.shiftl_mul_pow2 by lia.
    pose proof (Z.div_eucl_eq (Zpos m * 2 ^ 53) 4503599627370496 ltac:(lia)) as E.
    pose proof (Z.mod_pos_bound (Zpos m * 2 ^ 53) 4503599627370496 ltac:(lia)) as B.
    unfold Z.modulo in B.
    destruct (Z.div_eucl (Zpos m * 2 ^ 53) 4503599627370496) as [q r].
    change (2 ^ 53) with (2 * 4503599627370496) in E.
    assert (r = 0) by nia. subst r.
    assert (q = Zpos m~0) by nia. subst q. reflexivity. }
  rewrite Hdiv.
  change (new_location 4503599627370496 0) with loc_Exact.
  cbn [xorb].
  unfold binary_round_aux, shr_fexp, fexp, SpecFloat.emin, prec, emax.
  change (Zdigits2 (Zpos m~0)) with (Zpos (Pos.succ (digits2_pos m))).
  rewrite Pos2Z.inj_succ, Hd.
  replace (Z.max (Z.succ 53 + (e - ey - 53) - 53) (3 - 1024 - 53) - (e - ey - 53))
    with 1 by lia.
  cbn [shr shr_record_of_loc SpecFloat.iter_pos shr_1 orb shr_m loc_of_shr_record
       round_nearest_even].
  change (Zdigits2 (Zpos m)) with (Zpos (digits2_pos m)). rewrite Hd.
  replace (Z.max (53 + (e - ey - 53 + 1) - 53) (3 - 1024 - 53) - (e - ey - 53 + 1))
    with 0 by lia.
  cbn [shr shr_record_of_loc shr_m].
  replace (e - ey - 53 + 1 <=? 1024 - 53) with true by (symmetry; apply Z.leb_le; lia).
  f_equal. lia.
Qed.

Lemma js_pow2_repr j :
  In j [8; 16; 24; 32; 40] ->
  js_pow2 j = S754_finite false 4503599627370496 (j - 52).
Proof.
  intros Hj. simpl in Hj.
  destruct Hj as [<-|[<-|[<-|[<-|[<-|[]]]]]]; reflexivity.
Qed.

(** The integer part of the quotient is the integer quotient. *)
Lemma truncate_div_pow2 t j :
  0 <= t < 2 ^ 53 -> In j [8; 16; 24; 32; 40] ->
  truncate (js_div (num_of_Z t) (js_pow2 j)) = t / 2 ^ j.
Proof.
  intros Ht Hj.
  assert (Hj' : 8 <= j <= 40) by (simpl in Hj; lia).
  rewrite (js_pow2_repr j Hj).
  destruct (Z.eq_dec t 0) as [->|Hne].
  - rewrite Z.div_0_l by (apply Z.pow_nonzero; lia). reflexivity.
  - destruct (num_of_Z_pos t ltac:(lia)) as (m & e & -> & Hd & He & Hm).
    rewrite div_pow2 by lia.
    replace (e - (j - 52) - 52) with (- (j - e)) by lia.
    unfold truncate.
    rewrite Z.shiftl_opp_r, Z.shiftr_div_pow2 by lia.
    rewrite Hm.
    replace (j - e) with (j + - e) by lia.
    rewrite Z.pow_add_r by lia.
    apply Z.div_mul_cancel_r; apply Z.pow_nonzero; lia.
Qed.

Lemma truncate_num_of_Z t : 0 <= t < 2 ^ 53 -> truncate (num_of_Z t) = t.
Proof.
  intros Ht.
  destruct (Z.eq_dec t 0) as [->|Hne]; [reflexivity|].
  destruct (num_of_Z_pos t ltac:(lia)) as (m & e & -> & Hd & He & Hm).
  unfold truncate.
  replace e with (- - e) at 1 by lia.
  rewrite Z.shiftl_opp_r, Z.shiftr_div_pow2 by lia.
  rewrite Hm. apply Z.div_mul. apply Z.pow_nonzero; lia.
Qed.

Lemma int32_wrap_mod256 a : int32_wrap a mod 256 = a mod 256.
Proof.
  unfold int32_wrap.
  rewrite (Z.mod_eq (a + 2 ^ 31) (2 ^ 32)) by lia.
  replace (a + 2 ^ 31 - 2 ^ 32 * ((a + 2 ^ 31) / 2 ^ 32) - 2 ^ 31)
    with (a + (- (2 ^ 24 * ((a + 2 ^ 31) / 2 ^ 32))) * 256) by lia.
  apply Z.mod_add. lia.
Qed.

(** [x & 0xff] keeps the low octet. *)
Lemma bit_and_255 a : bit_and a 255 = a mod 256.
Proof.
  unfold bit_and. change (int32_wrap 255) with (Z.ones 8).
  rewrite Z.land_ones by lia.
  apply int32_wrap_mod256.
Qed.

End DoubleArithmetic.

(** ** Small ranges by enumeration *)

Lemma below_cases (P : Z -> Prop) (n : nat) :
  Forall P (List.map Z.of_nat (seq 0 n)) ->
  forall z, 0 <= z < Z.of_nat n -> P z.
Proof.
  intros HP z Hz.
  rewrite List.Forall_forall in HP. apply HP.
  apply List.in_map_iff. exists (Z.to_nat z).
  split; [lia|]. apply List.in_seq. lia.
Qed.

Ltac by_cases_below n z :=
  pattern z; apply (below_cases _ n); [|assumption || lia];
  let l := eval vm_compute in (List.map Z.of_nat (seq 0 n)) in
  change (List.map Z.of_nat (seq 0 n)) with l;
  repeat (apply List.Forall_cons; [vm_compute; reflexivity|]);
  apply List.Forall_nil.

Lemma is_octet_mod a : is_octet (a mod 256).
Proof. apply Z.mod_pos_bound. lia. Qed.

(** ** Marker bits *)

Lemma bit_and_ones a n :
  In n [4; 6] -> bit_and a (Z.ones n) = int32_wrap a mod 2 ^ n.
Proof.
  intros Hn. unfold bit_and.
  assert (int32_wrap (Z.ones n) = Z.ones n) as ->
    by (simpl in Hn; destruct Hn as [<-|[<-|[]]]; reflexivity).
  apply Z.land_ones. simpl in Hn. lia.
Qed.

Lemma force_version_7 x :
  exists y, 0 <= y < 16 /\ bit_or (bit_and x 15) 112 mod 256 = 112 + y.
Proof.
  exists (int32_wrap x mod 2 ^ 4).
  assert (H : 0 <= int32_wrap x mod 2 ^ 4 < 16) by (apply Z.mod_pos_bound; lia).
  split; [exact H|].
  change 15 with (Z.ones 4). rewrite bit_and_ones by (simpl; tauto).
  revert H. generalize (int32_wrap x mod 2 ^ 4). intros y Hy.
  by_cases_below 16%nat y.
Qed.

Lemma force_version_4 x :
  exists y, 0 <= y < 16 /\ bit_or (bit_and x 15) 64 mod 256 = 64 + y.
Proof.
  exists (int32_wrap x mod 2 ^ 4).
  assert (H : 0 <= int32_wrap x mod 2 ^ 4 < 16) by (apply Z.mod_pos_bound; lia).
  split; [exact H|].
  change 15 with (Z.ones 4). rewrite bit_and_ones by (simpl; tauto).
  revert H. generalize (int32_wrap x mod 2 ^ 4). intros y Hy.
  by_cases_below 16%nat y.
Qed.

Lemma force_variant x :
  exists y, 0 <= y < 64 /\ bit_or (bit_and x 63) 128 mod 256 = 128 + y.
Proof.
  exists (int32_wrap x mod 2 ^ 6).
  assert (H : 0 <= int32_wrap x mod 2 ^ 6 < 64) by (apply Z.mod_pos_bound; lia).
  split; [exact H|].
  change 63 with (Z.ones 6). rewrite bit_and_ones by (simpl; tauto).
  revert H. generalize (int32_wrap x mod 2 ^ 6). intros y Hy.
  by_cases_below 64%nat y.
Qed.

(** ** The octets of [generateUuidV7] *)

Lemma stamp_octet_range ts k : is_octet (stamp_octet ts k).
Proof. destruct k as [|[|[|[|[|k]]]]]; apply is_octet_mod. Qed.

Lemma u8_store_ge bytes i v :
  (length bytes <= i)%nat -> u8_store bytes i v = bytes.
Proof. intros H. unfold u8_store. apply list_insert_ge. exact H. Qed.

Lemma u8_set_ge src : forall bytes off,
  (length bytes <= off)%nat -> u8_set bytes src off = bytes.
Proof.
  induction src as [|x src IH]; intros bytes off H; [reflexivity|].
  simpl. rewrite u8_store_ge by exact H. apply IH. lia.
Qed.

(** Copying any source at offset 6 into a 16-octet array leaves the first
    six octets and fills the rest with octets. *)
Lemma u8_set_at_6 a0 a1 a2 a3 a4 a5 src :
  exists r6 r7 r8 r9 r10 r11 r12 r13 r14 r15,
    u8_set [a0; a1; a2; a3; a4; a5; 0; 0; 0; 0; 0; 0; 0; 0; 0; 0] src 6
    = [a0; a1; a2; a3; a4; a5; r6; r7; r8; r9; r10; r11; r12; r13; r14; r15]
    /\ Forall is_octet [r6; r7; r8; r9; r10; r11; r12; r13; r14; r15].
Proof.
  assert (Z0 : is_octet 0) by (unfold is_octet; lia).
  pose proof is_octet_mod as Hm.
  assert (Hall : forall l, Forall (fun x => x = 0 \/ exists a, x = a mod 256) l ->
                 Forall is_octet l).
  { intros l Hl. eapply List.Forall_impl; [|exact Hl].
    intros x [->|[a ->]]; [exact Z0 | apply Hm]. }
  do 10 (destruct src as [|? src];
         [do 10 eexists; split; [reflexivity|];
          apply Hall; repeat (apply List.Forall_cons; [eauto|]); apply List.Forall_nil|]).
  do 10 eexists. split.
  - cbn [u8_set]. unfold u8_store at 1 2 3 4 5 6 7 8 9 10.
    cbn [insert list_insert]. apply u8_set_ge. simpl. lia.
  - apply Hall; repeat (apply List.Forall_cons; [eauto|]); apply List.Forall_nil.
Qed.

Lemma uuidV7_bytes_shape ts rnd :
  exists y6 r7 y8 r9 r10 r11 r12 r13 r14 r15,
    uuidV7_bytes ts rnd =
      [stamp_octet ts 0; stamp_octet ts 1; stamp_octet ts 2;
       stamp_octet ts 3; stamp_octet ts 4; stamp_octet ts 5;
       112 + y6; r7; 128 + y8; r9; r10; r11; r12; r13; r14; r15]
    /\ 0 <= y6 < 16 /\ 0 <= y8 < 64
    /\ Forall is_octet [r7; r9; r10; r11; r12; r13; r14; r15].
Proof.
  unfold uuidV7_bytes. cbv zeta.
  change (u8_store (u8_store (u8_store (u8_store (u8_store (u8_store
            (Uint8Array 16) 0 ?[v0]) 1 ?[v1]) 2 ?[v2]) 3 ?[v3]) 4 ?[v4]) 5 ?[v5])
    with [stamp_octet ts 0; stamp_octet ts 1; stamp_octet ts 2;
          stamp_octet ts 3; stamp_octet ts 4; stamp_octet ts 5;
          0; 0; 0; 0; 0; 0; 0; 0; 0; 0].
  destruct (u8_set_at_6 (stamp_octet ts 0) (stamp_octet ts 1) (stamp_octet ts 2)
              (stamp_octet ts 3) (stamp_octet ts 4) (stamp_octet ts 5) rnd)
    as (r6 & r7 & r8 & r9 & r10 & r11 & r12 & r13 & r14 & r15 & -> & Hr).
  destruct (force_version_7 r6) as (y6 & Hy6 & E6).
  destruct (force_variant r8) as (y8 & Hy8 & E8).
  exists y6, r7, y8, r9, r10, r11, r12, r13, r14, r15.
  split; [|split; [exact Hy6|split; [exact Hy8|]]].
  - unfold u8_store, u8_get. cbn [insert list_insert lookup list_lookup default].
    cbn [default id]. rewrite E6, E8. reflexivity.
  - inversion Hr as [|? ? _ Hr1]; subst.
    inversion Hr1 as [|? ? H7 Hr2]; subst.
    inversion Hr2 as [|? ? _ Hr3]; subst.
    constructor; assumption.
Qed.

(** The stored octets are the base-256 digits of the time value. *)
Lemma stamp_octet_exact t k :
  0 <= t < 2 ^ 48 -> (k < 6)%nat ->
  stamp_octet (num_of_Z t) k = t / 2 ^ (8 * (5 - Z.of_nat k)) mod 256.
Proof.
  intros Ht Hk.
  assert (Ht' : 0 <= t < 2 ^ 53) by lia.
  destruct k as [|[|[|[|[|[|k]]]]]]; try lia; unfold stamp_octet;
    rewrite bit_and_255, Z.mod_mod by lia.
  1-5: rewrite truncate_div_pow2 by (simpl; tauto || lia); reflexivity.
  rewrite truncate_num_of_Z by lia.
  change (2 ^ (8 * (5 - Z.of_nat 5))) with 1. rewrite Z.div_1_r. reflexivity.
Qed.

Lemma uuidV7_bytes_stamp ts rnd k :
  (k < 6)%nat -> uuidV7_bytes ts rnd !! k = Some (stamp_octet ts k).
Proof.
  intros Hk.
  destruct (uuidV7_bytes_shape ts rnd)
    as (y6 & r7 & y8 & r9 & r10 & r11 & r12 & r13 & r14 & r15 & -> & _).
  destruct k as [|[|[|[|[|[|k]]]]]]; try lia; reflexivity.
Qed.

(** C10: for every time value [t] with [0 <= t < 2^48], the six octets
    [generateUuidV7] computes with floating-point division and masking are
    the exact big-endian base-256 digits of [t]: octet [k] is
    [floor (t / 2^(8*(5-k))) mod 256]. *)
Theorem C10_timestamp_octets_exact (t : Z) (rnd : list Z) (k : nat) :
  0 <= t < 2 ^ 48 -> (k < 6)%nat ->
  uuidV7_bytes (num_of_Z t) rnd !! k
  = Some (t / 2 ^ (8 * (5 - Z.of_nat k)) mod 256).
Proof.
  intros Ht Hk.
  rewrite uuidV7_bytes_stamp by exact Hk.
  f_equal. apply stamp_octet_exact; assumption.
Qed.

Lemma C10_witness :
  uuidV7_bytes (num_of_Z 1700000000000) [1; 2; 3; 4; 5; 6; 7; 8; 9; 10] !! 2%nat
  = Some (1700000000000 / 2 ^ (8 * (5 - Z.of_nat 2)) mod 256).
Proof.
  apply (C10_timestamp_octets_exact 1700000000000 [1; 2; 3; 4; 5; 6; 7; 8; 9; 10] 2);
    [split; [discriminate | reflexivity] | repeat constructor].
Defined.

Lemma digits_sum t :
  0 <= t < 2 ^ 48 ->
  ((((t / 2 ^ 40 mod 256 * 256 + t / 2 ^ 32 mod 256) * 256
     + t / 2 ^ 24 mod 256) * 256 + t / 2 ^ 16 mod 256) * 256
     + t / 2 ^ 8 mod 256) * 256 + t mod 256 = t.
Proof.
  intros Ht.
  change (2 ^ 40) with (2 ^ 32 * 256).
  change (2 ^ 32) with (2 ^ 24 * 256).
  change (2 ^ 24) with (2 ^ 16 * 256).
  change (2 ^ 16) with (2 ^ 8 * 256).
  change (2 ^ 8) with 256.
  rewrite <- !Z.div_div by lia.
  assert (t / 256 / 256 / 256 / 256 / 256 / 256 = 0).
  { rewrite !Z.div_div by lia. apply Z.div_small. lia. }
  pose proof (Z.div_mod t 256 ltac:(lia)).
  pose proof (Z.div_mod (t / 256) 256 ltac:(lia)).
  pose proof (Z.div_mod (t / 256 / 256) 256 ltac:(lia)).
  pose proof (Z.div_mod (t / 256 / 256 / 256) 256 ltac:(lia)).
  pose proof (Z.div_mod (t / 256 / 256 / 256 / 256) 256 ltac:(lia)).
  pose proof (Z.div_mod (t / 256 / 256 / 256 / 256 / 256) 256 ltac:(lia)).
  lia.
Qed.

Lemma uuidV7_bytes_octets t rnd :
  0 <= t < 2 ^ 48 -> Forall is_octet (uuidV7_bytes (num_of_Z t) rnd).
Proof.
  intros Ht.
  destruct (uuidV7_bytes_shape (num_of_Z t) rnd)
    as (y6 & r7 & y8 & r9 & r10 & r11 & r12 & r13 & r14 & r15 & -> & Hy6 & Hy8 & Hr).
  inversion Hr as [|? ? H7 Hr1]; subst.
  repeat (constructor; [first [apply stamp_octet_range | assumption | unfold is_octet; lia]|]).
  assumption.
Qed.

(** C6: for a time value [t] below 2^48 and any random fill, the 16 octets
    hold [t] big-endian in octets 0-5 (the top 48 bits of the 128-bit
    value), the version nibble (high 4 bits of octet 6) is 7 and the
    variant bits (high 2 bits of octet 8) are 10. *)
Theorem C6_time_ordered_layout (t : Z) (rnd : list Z) :
  0 <= t < 2 ^ 48 ->
  let bytes := uuidV7_bytes (num_of_Z t) rnd in
  length bytes = 16%nat /\ Forall is_octet bytes /\
  be_value (take 6 bytes) = t /\
  Z.shiftr (be_value bytes) 80 = t /\
  (exists b6, bytes !! 6%nat = Some b6 /\ Z.shiftr b6 4 = 7) /\
  (exists b8, bytes !! 8%nat = Some b8 /\ Z.shiftr b8 6 = 2).
Proof.
  intros Ht bytes. subst bytes.
  destruct (uuidV7_bytes_shape (num_of_Z t) rnd)
    as (y6 & r7 & y8 & r9 & r10 & r11 & r12 & r13 & r14 & r15 & -> & Hy6 & Hy8 & Hr).
  rewrite !stamp_octet_exact by lia.
  change (8 * (5 - Z.of_nat 0)) with 40. change (8 * (5 - Z.of_nat 1)) with 32.
  change (8 * (5 - Z.of_nat 2)) with 24. change (8 * (5 - Z.of_nat 3)) with 16.
  change (8 * (5 - Z.of_nat 4)) with 8. change (8 * (5 - Z.of_nat 5)) with 0.
  change (2 ^ 0) with 1. rewrite (Z.div_1_r t).
  pose proof (digits_sum t Ht) as Hsum.
  assert (Hoct : Forall is_octet
            [t / 2 ^ 40 mod 256; t / 2 ^ 32 mod 256; t / 2 ^ 24 mod 256;
             t / 2 ^ 16 mod 256; t / 2 ^ 8 mod 256; t mod 256;
             112 + y6; r7; 128 + y8; r9; r10; r11; r12; r13; r14; r15]).
  { inversion Hr as [|? ? H7 Hr1]; subst.
    repeat (constructor; [first [apply is_octet_mod | assumption | unfold is_octet; lia]|]).
    assumption. }
  split; [reflexivity|]. split; [exact Hoct|].
  split; [exact Hsum|].
  split.
  - rewrite Z.shiftr_div_pow2 by lia.
    unfold be_value. cbn [fold_left].
    repeat match goal with
           | H : Forall _ (_ :: _) |- _ => inversion H; clear H; subst
           end.
    unfold is_octet in *.
    symmetry. apply (Z.div_unique_pos _ _ _
      ((((((((((112 + y6) * 256 + r7) * 256 + (128 + y8)) * 256 + r9) * 256 + r10) * 256 + r11) * 256 + r12) * 256 + r13) * 256 + r14) * 256 + r15)).
    + change (2 ^ 80) with 1208925819614629174706176. lia.
    + revert Hsum.
      generalize (t / 2 ^ 40 mod 256), (t / 2 ^ 32 mod 256), (t / 2 ^ 24 mod 256),
        (t / 2 ^ 16 mod 256), (t / 2 ^ 8 mod 256), (t mod 256).
      intros. subst t. change (2 ^ 80) with 1208925819614629174706176. lia.
  - split.
    + exists (112 + y6). split; [reflexivity|].
      rewrite Z.shiftr_div_pow2 by lia. change (2 ^ 4) with 16.
      symmetry. apply (Z.div_unique_pos _ _ _ y6); lia.
    + exists (128 + y8). split; [reflexivity|].
      rewrite Z.shiftr_div_pow2 by lia. change (2 ^ 6) with 64.
      symmetry. apply (Z.div_unique_pos _ _ _ y8); lia.
Qed.

Lemma C6_witness :
  let bytes := uuidV7_bytes (num_of_Z 1700000000000) [255; 255; 255; 255; 255;
                                                       255; 255; 255; 255; 255] in
  length bytes = 16%nat /\ Forall is_octet bytes /\
  be_value (take 6 bytes) = 1700000000000 /\
  Z.shiftr (be_value bytes) 80 = 1700000000000 /\
  (exists b6, bytes !! 6%nat = Some b6 /\ Z.shiftr b6 4 = 7) /\
  (exists b8, bytes !! 8%nat = Some b8 /\ Z.shiftr b8 6 = 2).
Proof.
  apply (C6_time_ordered_layout 1700000000000); split; [discriminate | reflexivity].
Defined.

(** ** The canonical rendering of 16 octets *)

Lemma octet_hex a :
  is_octet a -> padStart 2 (toString16 a) = [hi a; lo a].
Proof.
  unfold is_octet. intros Ha. by_cases_below 256%nat a.
Qed.

Lemma uuid_format_octets a0 a1 a2 a3 a4 a5 a6 a7 a8 a9 a10 a11 a12 a13 a14 a15 :
  Forall is_octet [a0; a1; a2; a3; a4; a5; a6; a7; a8; a9; a10; a11; a12; a13; a14; a15] ->
  uuid_format [a0; a1; a2; a3; a4; a5; a6; a7; a8; a9; a10; a11; a12; a13; a14; a15]
  = [hi a0; lo a0; hi a1; lo a1; hi a2; lo a2; hi a3; lo a3; 45%N;
     hi a4; lo a4; hi a5; lo a5; 45%N;
     hi a6; lo a6; hi a7; lo a7; 45%N;
     hi a8; lo a8; hi a9; lo a9; 45%N;
     hi a10; lo a10; hi a11; lo a11; hi a12; lo a12;
     hi a13; lo a13; hi a14; lo a14; hi a15; lo a15].
Proof.
  intros H.
  repeat match goal with
         | H : Forall _ (_ :: _) |- _ => inversion H; clear H; subst
         end.
  unfold uuid_format. cbn [List.map].
  rewrite !octet_hex by assumption. reflexivity.
Qed.

Lemma hex_digit_compare x y :
  0 <= x < 16 -> 0 <= y < 16 ->
  N.compare (hex_digit x) (hex_digit y) = Z.compare x y.
Proof.
  intros Hx Hy. unfold hex_digit.
  destruct (Z.ltb_spec x 10), (Z.ltb_spec y 10);
    rewrite Z2N.inj_compare by lia;
    destruct (Z.compare_spec x y) as [E|L|G];
    [apply Z.compare_eq_iff | apply Z.compare_lt_iff | apply Z.compare_gt_iff
    |apply Z.compare_eq_iff | apply Z.compare_lt_iff | apply Z.compare_gt_iff
    |apply Z.compare_eq_iff | apply Z.compare_lt_iff | apply Z.compare_gt_iff
    |apply Z.compare_eq_iff | apply Z.compare_lt_iff | apply Z.compare_gt_iff];
    lia.
Qed.

(** Two octets compare like their two-digit renderings. *)
Lemma octet_pair_compare a b r1 r2 :
  is_octet a -> is_octet b ->
  str_compare (hi a :: lo a :: r1) (hi b :: lo b :: r2)
  = match Z.compare a b with Eq => str_compare r1 r2 | c => c end.
Proof.
  unfold is_octet, hi, lo. intros Ha Hb.
  pose proof (Z.div_mod a 16 ltac:(lia)) as Ea.
  pose proof (Z.div_mod b 16 ltac:(lia)) as Eb.
  pose proof (Z.mod_pos_bound a 16 ltac:(lia)) as Ra.
  pose proof (Z.mod_pos_bound b 16 ltac:(lia)) as Rb.
  assert (0 <= a / 16 < 16) by (split; [apply Z.div_pos; lia | apply Z.div_lt_upper_bound; lia]).
  assert (0 <= b / 16 < 16) by (split; [apply Z.div_pos; lia | apply Z.div_lt_upper_bound; lia]).
  cbn [str_compare].
  rewrite !hex_digit_compare by assumption.
  destruct (Z.compare_spec (a / 16) (b / 16)) as [E|L|G].
  - destruct (Z.compare_spec (a mod 16) (b mod 16)) as [E'|L'|G'].
    + replace (a ?= b) with Eq by (symmetry; apply Z.compare_eq_iff; lia). reflexivity.
    + replace (a ?= b) with Lt by (symmetry; apply Z.compare_lt_iff; lia). reflexivity.
    + replace (a ?= b) with Gt by (symmetry; apply Z.compare_gt_iff; lia). reflexivity.
  - replace (a ?= b) with Lt by (symmetry; apply Z.compare_lt_iff; lia). reflexivity.
  - replace (a ?= b) with Gt by (symmetry; apply Z.compare_gt_iff; lia). reflexivity.
Qed.

Lemma generateUuidV7_eq w :
  fst (generateUuidV7 w)
  = uuid_format (uuidV7_bytes (num_of_Z (clock w (clock_reads w)))
                   (fst (randomBytes 10 (tick w)))).
Proof. reflexivity. Qed.

Lemma str_compare_cons_same c r1 r2 :
  str_compare (c :: r1) (c :: r2) = str_compare r1 r2.
Proof. cbn [str_compare]. rewrite N.compare_refl. reflexivity. Qed.

(** C7: time-ordered identifiers generated at increasing milliseconds
    (below 2^48) have increasing, hence non-decreasing, canonical strings,
    whatever the random fill; the order within one millisecond is left to
    the random tail. *)
Theorem C7_time_ordered_strings_sorted (w1 w2 : World) :
  0 <= clock w1 (clock_reads w1) ->
  clock w1 (clock_reads w1) < clock w2 (clock_reads w2) ->
  clock w2 (clock_reads w2) < 2 ^ 48 ->
  str_compare (fst (generateUuidV7 w1)) (fst (generateUuidV7 w2)) = Lt.
Proof.
  rewrite !generateUuidV7_eq.
  generalize (fst (randomBytes 10 (tick w1))), (fst (randomBytes 10 (tick w2))).
  generalize (clock w1 (clock_reads w1)), (clock w2 (clock_reads w2)).
  intros t1 t2 rnd1 rnd2 H0 Hlt H48.
  pose proof (uuidV7_bytes_octets t1 rnd1 ltac:(lia)) as O1.
  pose proof (uuidV7_bytes_octets t2 rnd2 ltac:(lia)) as O2.
  revert O1 O2.
  destruct (uuidV7_bytes_shape (num_of_Z t1) rnd1)
    as (y6 & r7 & y8 & r9 & r10 & r11 & r12 & r13 & r14 & r15 & -> & _).
  destruct (uuidV7_bytes_shape (num_of_Z t2) rnd2)
    as (y6' & r7' & y8' & r9' & r10' & r11' & r12' & r13' & r14' & r15' & -> & _).
  intros O1 O2.
  rewrite !uuid_format_octets by assumption.
  do 4 rewrite octet_pair_compare by apply stamp_octet_range.
  rewrite str_compare_cons_same.
  do 2 rewrite octet_pair_compare by apply stamp_octet_range.
  rewrite !stamp_octet_exact by lia.
  change (8 * (5 - Z.of_nat 0)) with 40. change (8 * (5 - Z.of_nat 1)) with 32.
  change (8 * (5 - Z.of_nat 2)) with 24. change (8 * (5 - Z.of_nat 3)) with 16.
  change (8 * (5 - Z.of_nat 4)) with 8. change (8 * (5 - Z.of_nat 5)) with 0.
  change (2 ^ 0) with 1. rewrite !Z.div_1_r.
  pose proof (digits_sum t1 ltac:(lia)) as S1.
  pose proof (digits_sum t2 ltac:(lia)) as S2.
  pose proof (Z.mod_pos_bound (t1 / 2 ^ 40) 256 ltac:(lia)).
  pose proof (Z.mod_pos_bound (t1 / 2 ^ 32) 256 ltac:(lia)).
  pose proof (Z.mod_pos_bound (t1 / 2 ^ 24) 256 ltac:(lia)).
  pose proof (Z.mod_pos_bound (t1 / 2 ^ 16) 256 ltac:(lia)).
  pose proof (Z.mod_pos_bound (t1 / 2 ^ 8) 256 ltac:(lia)).
  pose proof (Z.mod_pos_bound t1 256 ltac:(lia)).
  pose proof (Z.mod_pos_bound (t2 / 2 ^ 40) 256 ltac:(lia)).
  pose proof (Z.mod_pos_bound (t2 / 2 ^ 32) 256 ltac:(lia)).
  pose proof (Z.mod_pos_bound (t2 / 2 ^ 24) 256 ltac:(lia)).
  pose proof (Z.mod_pos_bound (t2 / 2 ^ 16) 256 ltac:(lia)).
  pose proof (Z.mod_pos_bound (t2 / 2 ^ 8) 256 ltac:(lia)).
  pose proof (Z.mod_pos_bound t2 256 ltac:(lia)).
  revert S1 S2.
  repeat match goal with
         | |- context [Z.compare ?a ?b] =>
             destruct (Z.compare_spec a b); try reflexivity
         end; intros S1 S2; exfalso; lia.
Qed.

Lemma C7_witness :
  let w1 := {| uuidHistory := []; clock := fun _ => 1700000000000; clock_reads := 0;
               entropy := fun _ => xff; entropy_used := 0 |} in
  let w2 := {| uuidHistory := []; clock := fun _ => 1700000000001; clock_reads := 0;
               entropy := fun _ => x00; entropy_used := 0 |} in
  str_compare (fst (generateUuidV7 w1)) (fst (generateUuidV7 w2)) = Lt.
Proof.
  intros w1 w2.
  apply (C7_time_ordered_strings_sorted w1 w2); [discriminate | reflexivity | reflexivity].
Defined.

(** Within one millisecond the order follows the random tail: the same
    clock reading with a larger fill first gives a decreasing pair. *)
Example same_millisecond_unordered :
  let w1 := {| uuidHistory := []; clock := fun _ => 1700000000000; clock_reads := 0;
               entropy := fun _ => xff; entropy_used := 0 |} in
  let w2 := {| uuidHistory := []; clock := fun _ => 1700000000000; clock_reads := 0;
               entropy := fun _ => x00; entropy_used := 0 |} in
  str_compare (fst (generateUuidV7 w1)) (fst (generateUuidV7 w2)) = Gt /\
  str_compare (fst (generateUuidV7 w2)) (fst (generateUuidV7 w1)) = Lt.
Proof. split; vm_compute; reflexivity. Qed.

(** ** The pattern of [validate_uuid] *)

Lemma match_class_positions atoms times : forall s rest,
  match match_class atoms times s with
  | Some s' => all_match rest s'
  | None => false
  end = all_match (replicate times (class_matches atoms) ++ rest) s.
Proof.
  induction times as [|n IH]; intros s rest; [reflexivity|].
  destruct s as [|ch s]; [reflexivity|].
  cbn [match_class replicate app all_match].
  destruct (class_matches atoms ch); [apply IH | reflexivity].
Qed.

(** The anchored pattern tests the input position by position. *)
Lemma regex_test_positions pattern : forall s,
  regex_test pattern s = all_match (pattern_positions pattern) s.
Proof.
  induction pattern as [|[atoms times|c] rest IH]; intros s.
  - destruct s; reflexivity.
  - cbn [regex_test pattern_positions].
    rewrite <- match_class_positions.
    destruct (match_class atoms times s); [apply IH | reflexivity].
  - destruct s as [|ch s]; [reflexivity|].
    cbn [regex_test pattern_positions all_match].
    destruct (char_matches c ch); [apply IH | reflexivity].
Qed.

Lemma all_match_length tests : forall s,
  all_match tests s = true -> length s = length tests.
Proof.
  induction tests as [|f tests IH]; intros [|ch s] H; try discriminate; [reflexivity|].
  cbn [all_match] in H. apply andb_prop in H as [_ H].
  cbn [length]. f_equal. apply IH. exact H.
Qed.

Lemma all_match_imap tests : forall s,
  all_match tests s
  = (length s =? length tests)%nat
    && forallb (fun b : bool => b)
         (imap (fun i c => nth i tests (fun _ => false) c) s).
Proof.
  induction tests as [|f tests IH]; intros [|ch s]; try reflexivity.
  cbn [all_match length imap forallb nth Nat.eqb].
  rewrite IH.
  destruct (f ch), (length s =? length tests)%nat; reflexivity.
Qed.

Lemma canonicalize_high c : (128 <= c)%N -> canonicalize c = c.
Proof.
  intros H. unfold canonicalize.
  destruct (N.leb_spec c 122); [lia|].
  rewrite andb_false_r. reflexivity.
Qed.

Lemma ascii_term_high t :
  ascii_term t = true ->
  Forall (fun f : N -> bool => forall c, (128 <= c)%N -> f c = false)
    (pattern_positions [t]).
Proof.
  destruct t as [atoms times|ch]; cbn [ascii_term pattern_positions]; intros H.
  - rewrite app_nil_r. apply Forall_replicate. intros c Hc.
    unfold class_matches. rewrite canonicalize_high by exact Hc.
    apply not_true_is_false. intros E.
    apply existsb_exists in E as (a & Ha & E).
    apply existsb_exists in E as (m & Hm & E).
    rewrite forallb_forall in H. specialize (H a Ha).
    rewrite forallb_forall in H. specialize (H m Hm).
    apply N.ltb_lt in H. apply N.eqb_eq in E. lia.
  - constructor; [|constructor]. intros c Hc.
    unfold char_matches. rewrite (canonicalize_high c) by exact Hc.
    apply N.ltb_lt in H. apply N.eqb_neq. lia.
Qed.

Lemma pattern_positions_app p q :
  pattern_positions (p ++ q) = pattern_positions p ++ pattern_positions q.
Proof.
  induction p as [|[atoms times|c] p IH]; cbn [app pattern_positions].
  - reflexivity.
  - rewrite IH, app_assoc. reflexivity.
  - rewrite IH. reflexivity.
Qed.

Lemma ascii_pattern_high pattern :
  forallb ascii_term pattern = true ->
  Forall (fun f : N -> bool => forall c, (128 <= c)%N -> f c = false)
    (pattern_positions pattern).
Proof.
  induction pattern as [|t pattern IH]; intros H; [constructor|].
  cbn [forallb] in H. apply andb_prop in H as [Ht Hp].
  change (t :: pattern) with ([t] ++ pattern).
  rewrite pattern_positions_app. apply Forall_app. split.
  - apply ascii_term_high. exact Ht.
  - apply IH. exact Hp.
Qed.

Lemma hex_value_high c : (128 <= c)%N -> hex_value c = None.
Proof.
  intros H. unfold hex_value.
  destruct (N.leb_spec c 57); [lia|]. rewrite andb_false_r.
  destruct (N.leb_spec c 102); [lia|]. rewrite andb_false_r.
  destruct (N.leb_spec c 70); [lia|]. rewrite andb_false_r.
  reflexivity.
Qed.

Lemma grammar_position_high i c : (128 <= c)%N -> grammar_position i c = false.
Proof.
  intros H. unfold grammar_position.
  rewrite hex_value_high by exact H.
  destruct (hyphen_position i); [|reflexivity].
  apply N.eqb_neq. lia.
Qed.

(** Position by position, the pattern is the grammar of the spec. *)
Lemma pattern_is_grammar i c :
  (i < 36)%nat ->
  nth i (pattern_positions uuidPattern) (fun _ => false) c = grammar_position i c.
Proof.
  intros Hi.
  destruct (N.lt_ge_cases c 128) as [Hc|Hc].
  - assert (T : forallb (fun i =>
                forallb (fun k =>
                  Bool.eqb (nth i (pattern_positions uuidPattern) (fun _ => false) (N.of_nat k))
                           (grammar_position i (N.of_nat k)))
                  (seq 0 128)) (seq 0 36) = true) by (vm_compute; reflexivity).
    rewrite forallb_forall in T. specialize (T i ltac:(apply List.in_seq; lia)).
    rewrite forallb_forall in T. specialize (T (N.to_nat c) ltac:(apply List.in_seq; lia)).
    rewrite N2Nat.id in T. apply Bool.eqb_prop in T. exact T.
  - rewrite grammar_position_high by exact Hc.
    pose proof (ascii_pattern_high uuidPattern ltac:(vm_compute; reflexivity)) as F.
    rewrite List.Forall_forall in F.
    apply F; [|exact Hc]. apply nth_In.
    vm_compute. lia.
Qed.

(** C4: [validate_uuid] is a total predicate on arbitrary strings: every
    input gets a verdict, and the verdict is [true] exactly when the input
    matches the canonical grammar (8-4-4-4-12 hexadecimal groups with the
    hyphens at the fixed positions, version nibble in 1..7, variant nibble
    with top bits 10, either case); any other input gets [false] and no
    detected version. *)
Theorem C4_validate_is_canonical_grammar (s : jsstring) :
  fst (validate_uuid_check s) = canonical_grammar s /\
  (canonical_grammar s = false -> validate_uuid_check s = (false, None)).
Proof.
  assert (E : regex_test uuidPattern s = canonical_grammar s).
  { rewrite regex_test_positions, all_match_imap. unfold canonical_grammar.
    change (length (pattern_positions uuidPattern)) with 36%nat.
    destruct (length s =? 36)%nat eqn:L; [|reflexivity].
    cbn [andb]. f_equal. apply imap_ext. intros i c Hic.
    apply pattern_is_grammar.
    apply lookup_lt_Some in Hic. apply Nat.eqb_eq in L. lia. }
  split.
  - unfold validate_uuid_check. cbn [fst]. exact E.
  - intros H. unfold validate_uuid_check. rewrite E, H. reflexivity.
Qed.

(** ** Generated identifiers *)

Lemma nibbles_range a :
  is_octet a -> 0 <= a / 16 < 16 /\ 0 <= a mod 16 < 16.
Proof.
  unfold is_octet. intros Ha. split.
  - split; [apply Z.div_pos; lia | apply Z.div_lt_upper_bound; lia].
  - apply Z.mod_pos_bound. lia.
Qed.

Lemma hex_class_digit d :
  0 <= d < 16 -> class_matches hex_class (hex_digit d) = true.
Proof. intros Hd. by_cases_below 16%nat d. Qed.

Lemma is_lower_hex_digit d :
  0 <= d < 16 -> is_lower_hex (hex_digit d) = true.
Proof. intros Hd. by_cases_below 16%nat d. Qed.

Lemma version_class_digit v :
  1 <= v <= 7 -> class_matches [ClassRange 49 55] (hex_digit v) = true.
Proof.
  intros Hv. assert (H : 0 <= v - 1 < 7) by lia.
  replace v with (v - 1 + 1) by lia. revert H. generalize (v - 1). intros d Hd.
  by_cases_below 7%nat d.
Qed.

Lemma variant_class_digit d :
  8 <= d <= 11 ->
  class_matches [ClassChar 56; ClassChar 57; ClassChar 97; ClassChar 98] (hex_digit d) = true.
Proof.
  intros Hv. assert (H : 0 <= d - 8 < 4) by lia.
  replace d with (d - 8 + 8) by lia. revert H. generalize (d - 8). intros e He.
  by_cases_below 4%nat e.
Qed.

Lemma hex_class_hi a : is_octet a -> class_matches hex_class (hi a) = true.
Proof. intros H. apply hex_class_digit, nibbles_range, H. Qed.

Lemma hex_class_lo a : is_octet a -> class_matches hex_class (lo a) = true.
Proof. intros H. apply hex_class_digit, nibbles_range, H. Qed.

Lemma is_lower_hex_hi a : is_octet a -> is_lower_hex (hi a) = true.
Proof. intros H. apply is_lower_hex_digit, nibbles_range, H. Qed.

Lemma is_lower_hex_lo a : is_octet a -> is_lower_hex (lo a) = true.
Proof. intros H. apply is_lower_hex_digit, nibbles_range, H. Qed.

Ltac explode_octets H :=
  repeat match type of H with
         | Forall _ (_ :: _) =>
             let Hx := fresh "Ho" in
             let H' := fresh "Hf" in
             pose proof (Forall_inv H) as Hx;
             pose proof (Forall_inv_tail H) as H'; clear H; rename H' into H
         end.

(** The rendering of marked octets passes the pattern, and the character
    at index 14 is the version digit. *)
Lemma marked_validates v bytes :
  1 <= v <= 7 -> marked_octets v bytes ->
  validate_uuid_check (uuid_format bytes) = (true, Some (lit "v" ++ [hex_digit v])).
Proof.
  intros Hv (Hlen & Hoct & (b6 & E6 & S6) & (b8 & E8 & S8)).
  do 17 (destruct bytes as [|? bytes]; try discriminate Hlen).
  cbn in E6, E8. injection E6 as ->. injection E8 as ->.
  rewrite Z.shiftr_div_pow2 in S6, S8 by lia.
  change (2 ^ 4) with 16 in S6. change (2 ^ 6) with 64 in S8.
  rewrite uuid_format_octets by exact Hoct.
  pose proof Hoct as Hf. explode_octets Hf.
  assert (H8 : 8 <= b8 / 16 <= 11).
  { unfold is_octet in *.
    pose proof (Z.div_mod b8 64 ltac:(lia)).
    pose proof (Z.mod_pos_bound b8 64 ltac:(lia)).
    split; [apply Z.div_le_lower_bound; lia | apply Z.lt_succ_r, Z.div_lt_upper_bound; lia]. }
  match goal with
  | |- validate_uuid_check ?s = _ =>
      assert (E : regex_test uuidPattern s = true)
  end.
  { rewrite regex_test_positions.
    cbv [pattern_positions uuidPattern replicate app].
    cbn [all_match].
    rewrite !hex_class_hi, !hex_class_lo by assumption.
    unfold hi at 1. rewrite S6, version_class_digit by exact Hv.
    unfold hi at 1. rewrite variant_class_digit by exact H8.
    reflexivity. }
  unfold validate_uuid_check. rewrite E.
  cbn [lookup list_lookup]. unfold hi. rewrite S6. reflexivity.
Qed.

Lemma marked_lowercase v bytes :
  marked_octets v bytes -> canonical_lowercase (uuid_format bytes) = true.
Proof.
  intros (Hlen & Hoct & _).
  do 17 (destruct bytes as [|? bytes]; try discriminate Hlen).
  rewrite uuid_format_octets by exact Hoct.
  pose proof Hoct as Hf. explode_octets Hf.
  unfold canonical_lowercase.
  cbn [length Nat.eqb andb imap compose forallb].
  cbv [lowercase_position hyphen_position existsb Nat.eqb orb].
  rewrite !is_lower_hex_hi, !is_lower_hex_lo by assumption.
  reflexivity.
Qed.

Lemma version_digit ver : lit "v" ++ [hex_digit (version_number ver)] = version_string ver.
Proof. destruct ver; reflexivity. Qed.

Lemma generated_validates ver u :
  generated_by ver u -> validate_uuid_check u = (true, Some (version_string ver)).
Proof.
  intros (bytes & -> & Hm).
  rewrite <- version_digit. apply marked_validates; [destruct ver; simpl; lia | exact Hm].
Qed.

Lemma generated_lowercase ver u :
  generated_by ver u -> canonical_lowercase u = true.
Proof. intros (bytes & -> & Hm). eapply marked_lowercase, Hm. Qed.

Lemma uuidV7_bytes_marked ts rnd : marked_octets 7 (uuidV7_bytes ts rnd).
Proof.
  destruct (uuidV7_bytes_shape ts rnd)
    as (y6 & r7 & y8 & r9 & r10 & r11 & r12 & r13 & r14 & r15 & -> & Hy6 & Hy8 & Hr).
  split; [reflexivity|]. split.
  - inversion Hr as [|? ? H7 Hr1]; subst.
    repeat (constructor; [first [apply stamp_octet_range | assumption | unfold is_octet; lia]|]).
    assumption.
  - split.
    + exists (112 + y6). split; [reflexivity|].
      rewrite Z.shiftr_div_pow2 by lia. change (2 ^ 4) with 16.
      symmetry. apply (Z.div_unique_pos _ _ _ y6); lia.
    + exists (128 + y8). split; [reflexivity|].
      rewrite Z.shiftr_div_pow2 by lia. change (2 ^ 6) with 64.
      symmetry. apply (Z.div_unique_pos _ _ _ y8); lia.
Qed.

Lemma byte_octet (b : byte) : is_octet (Z.of_N (Byte.to_N b)).
Proof. pose proof (Byte.to_N_bounded b). unfold is_octet. lia. Qed.

Lemma randomUUID_marked w :
  exists bytes, randomUUID w = (uuid_format bytes, consume 16 w) /\ marked_octets 4 bytes.
Proof.
  unfold randomUUID, randomBytes. cbn [seq List.map].
  eexists. split; [reflexivity|].
  unfold u8_store, u8_get.
  cbn [insert list_insert lookup list_lookup default]. cbn [default id].
  destruct (force_version_4 (Z.of_N (Byte.to_N (entropy w (entropy_used w + 6)%nat))))
    as (y6 & Hy6 & E6).
  destruct (force_variant (Z.of_N (Byte.to_N (entropy w (entropy_used w + 8)%nat))))
    as (y8 & Hy8 & E8).
  rewrite E6, E8.
  split; [reflexivity|]. split.
  - repeat (apply List.Forall_cons; [first [apply byte_octet | unfold is_octet; lia]|]).
    apply List.Forall_nil.
  - split.
    + exists (64 + y6). split; [reflexivity|].
      rewrite Z.shiftr_div_pow2 by lia. change (2 ^ 4) with 16.
      symmetry. apply (Z.div_unique_pos _ _ _ y6); lia.
    + exists (128 + y8). split; [reflexivity|].
      rewrite Z.shiftr_div_pow2 by lia. change (2 ^ 6) with 64.
      symmetry. apply (Z.div_unique_pos _ _ _ y8); lia.
Qed.

(** ** The loop of [generate_uuid] *)

Lemma generate_loop_iter fuel ver count : forall i st st',
  generate_loop fuel ver count i st = Some st' ->
  exists m, st' = Nat.iter m (generate_step ver) st.
Proof.
  induction fuel as [|fuel IH]; intros i st st' H; [discriminate|].
  cbn [generate_loop] in H.
  destruct (js_lt i count).
  - apply IH in H as (m & ->). exists (S m). symmetry. apply Nat.iter_succ_r.
  - injection H as <-. exists 0%nat. reflexivity.
Qed.

Lemma small_number_add k :
  0 <= k < 10 -> js_add (num_of_Z k) (num_of_Z 1) = num_of_Z (k + 1).
Proof. intros Hk. by_cases_below 10%nat k. Qed.

Lemma small_number_lt k n :
  0 <= k < 11 -> 0 <= n < 11 ->
  js_lt (num_of_Z k) (num_of_Z n) = (k <? n).
Proof.
  intros Hk Hn.
  assert (H : 0 <= 11 * n + k < 121) by lia.
  assert (E : js_lt (num_of_Z ((11 * n + k) mod 11)) (num_of_Z ((11 * n + k) / 11))
              = ((11 * n + k) mod 11 <? (11 * n + k) / 11)).
  { revert H. generalize (11 * n + k). intros z Hz. by_cases_below 121%nat z. }
  replace ((11 * n + k) mod 11) with k in E
    by (apply (Z.mod_unique_pos _ _ n); lia).
  replace ((11 * n + k) / 11) with n in E
    by (apply (Z.div_unique_pos _ _ _ k); lia).
  exact E.
Qed.

(** With an integral bound in 1..10 the loop makes exactly that many
    iterations, given enough fuel. *)
Lemma generate_loop_integer ver n :
  1 <= n <= 10 ->
  forall (m : nat) k st fuel,
    0 <= k -> k + Z.of_nat m = n -> (m < fuel)%nat ->
    generate_loop fuel ver (num_of_Z n) (num_of_Z k) st
    = Some (Nat.iter m (generate_step ver) st).
Proof.
  intros Hn. induction m as [|m IH]; intros k st fuel Hk E Hf;
    (destruct fuel as [|fuel]; [lia|]); cbn [generate_loop].
  - rewrite small_number_lt by lia.
    destruct (Z.ltb_spec k n); [lia|]. reflexivity.
  - rewrite small_number_lt by lia.
    destruct (Z.ltb_spec k n); [|lia].
    rewrite small_number_add by lia.
    rewrite (IH (k + 1)) by lia.
    rewrite Nat.iter_succ_r. reflexivity.
Qed.

(** Whatever the bound, once it is not above 10 the loop ends within 11
    tests. *)
Lemma generate_loop_bounded ver count :
  js_gt count (num_of_Z 10) = false ->
  forall (j : nat) st fuel,
    (j <= 10)%nat -> (j < fuel)%nat ->
    exists m, (m <= j)%nat /\
      generate_loop fuel ver count (num_of_Z (10 - Z.of_nat j)) st
      = Some (Nat.iter m (generate_step ver) st).
Proof.
  intros Hmax. induction j as [|j IH]; intros st fuel Hj Hf;
    (destruct fuel as [|fuel]; [lia|]); cbn [generate_loop].
  - exists 0%nat. split; [lia|].
    change (js_lt (num_of_Z (10 - Z.of_nat 0)) count) with (js_gt count (num_of_Z 10)).
    rewrite Hmax. reflexivity.
  - destruct (js_lt (num_of_Z (10 - Z.of_nat (S j))) count).
    + rewrite small_number_add by lia.
      replace (10 - Z.of_nat (S j) + 1) with (10 - Z.of_nat j) by lia.
      destruct (IH (generate_step ver st) fuel ltac:(lia) ltac:(lia)) as (m & Hm & ->).
      exists (S m). split; [lia|]. rewrite Nat.iter_succ_r. reflexivity.
    + exists 0%nat. split; [lia|]. reflexivity.
Qed.

(** What one iteration does. *)
Lemma generate_step_spec ver uuids w :
  exists u,
    generated_by ver u /\
    generate_step ver (uuids, w) =
      (uuids ++ [u],
       {| uuidHistory := uuidHistory w ++
            [{| uuid := u; version := ver;
                createdAt := toISOString (clock w (stamp_index ver (clock_reads w) 0)) |}];
          clock := clock w;
          clock_reads := (clock_reads w + reads_per_step ver)%nat;
          entropy := entropy w;
          entropy_used := (entropy_used w + match ver with v4 => 16 | v7 => 10 end)%nat |}).
Proof.
  destruct ver.
  - destruct (randomUUID_marked w) as (bytes & E & Hm).
    exists (uuid_format bytes). split; [exists bytes; split; [reflexivity | exact Hm]|].
    unfold generate_step. rewrite E.
    unfold new_Date_toISOString, history_push, set_history, tick, consume, stamp_index.
    cbn. repeat f_equal; lia.
  - exists (fst (generateUuidV7 w)). split.
    + exists (uuidV7_bytes (num_of_Z (clock w (clock_reads w))) (fst (randomBytes 10 (tick w)))).
      split; [reflexivity | apply uuidV7_bytes_marked].
    + unfold generate_step, generateUuidV7, Date_now, randomBytes.
      unfold new_Date_toISOString, history_push, set_history, tick, consume, stamp_index.
      cbn [fst snd uuidHistory clock clock_reads entropy entropy_used reads_per_step].
      repeat f_equal; lia.
Qed.

(** What [m] iterations do: [m] identifiers of the variant, [m] records
    appended in the same order, each stamped with its own clock reading. *)
Lemma generate_steps_spec ver m : forall uuids w,
  exists recs w',
    Nat.iter m (generate_step ver) (uuids, w) = (uuids ++ List.map uuid recs, w') /\
    uuidHistory w' = uuidHistory w ++ recs /\
    length recs = m /\
    Forall (fun r => version r = ver /\ generated_by ver (uuid r)) recs /\
    (forall i r, recs !! i = Some r ->
       createdAt r = toISOString (clock w (stamp_index ver (clock_reads w) i))) /\
    clock w' = clock w /\
    clock_reads w' = (clock_reads w + m * reads_per_step ver)%nat.
Proof.
  induction m as [|m IH]; intros uuids w.
  - exists [], w. cbn [Nat.iter List.map length].
    rewrite !app_nil_r. repeat split; try constructor; try lia.
    intros i r H. rewrite lookup_nil in H. discriminate.
  - destruct (IH uuids w) as (recs & w1 & E & Hh & Hl & Hv & Hc & Hk & Hr).
    change (Nat.iter (S m) (generate_step ver) (uuids, w))
      with (generate_step ver (Nat.iter m (generate_step ver) (uuids, w))).
    rewrite E.
    destruct (generate_step_spec ver (uuids ++ List.map uuid recs) w1) as (u & Hu & Es).
    rewrite Es.
    set (r0 := {| uuid := u; version := ver;
                  createdAt := toISOString
                    (clock w1 (stamp_index ver (clock_reads w1) 0)) |}).
    eexists (recs ++ [r0]), _. split.
    { rewrite List.map_app, app_assoc. reflexivity. }
    cbn [uuidHistory clock clock_reads].
    rewrite Hh, Hk, Hr. split; [rewrite app_assoc; reflexivity|].
    split; [rewrite length_app; cbn [length]; lia|].
    split.
    { apply Forall_app. split; [exact Hv|].
      apply List.Forall_cons; [|apply List.Forall_nil].
      split; [reflexivity | exact Hu]. }
    split; [|split; [reflexivity | lia]].
    intros i r Hi.
    destruct (lookup_app_Some recs [r0] i r) as [Hcase _].
    destruct (Hcase Hi) as [Hin | [Hge Hlast]].
    + apply Hc. exact Hin.
    + destruct (i - length recs)%nat as [|d] eqn:Ed;
        [|rewrite lookup_cons, lookup_nil in Hlast; discriminate].
      cbn in Hlast. injection Hlast as <-. subst r0. cbn [createdAt].
      rewrite Hk, Hr. f_equal. f_equal.
      destruct ver; unfold stamp_index, reads_per_step; lia.
Qed.

(** ** The bounded history *)

(** The [while] loop keeps the last 100 records. *)
Lemma history_trim_last100 h : history_trim h = last100 h.
Proof.
  unfold last100. induction h as [|r h IH]; [reflexivity|].
  cbn [history_trim].
  destruct (Nat.ltb_spec 100 (length (r :: h))) as [Hgt|Hle].
  - rewrite IH. cbn [length] in *.
    replace (S (length h) - 100)%nat with (S (length h - 100)) by lia.
    reflexivity.
  - replace (length (r :: h) - 100)%nat with 0%nat by lia. reflexivity.
Qed.

Lemma last100_length {A} (l : list A) : (length (last100 l) <= 100)%nat.
Proof. unfold last100. rewrite length_drop. lia. Qed.

Lemma last100_short {A} (l : list A) : (length l <= 100)%nat -> last100 l = l.
Proof. intros H. unfold last100. replace (length l - 100)%nat with 0%nat by lia. reflexivity. Qed.

Lemma last100_map {A B} (f : A -> B) (l : list A) :
  List.map f (last100 l) = last100 (List.map f l).
Proof.
  unfold last100. rewrite List.length_map.
  change (List.map f) with (fmap (M:=list) f). rewrite fmap_drop. reflexivity.
Qed.

(** Eviction is first-in first-out: trimming early does not change what
    is kept after later appends. *)
Lemma last100_app {A} (a b : list A) : last100 (last100 a ++ b) = last100 (a ++ b).
Proof.
  unfold last100.
  destruct (Nat.le_gt_cases (length a) 100) as [Hle|Hgt].
  - replace (length a - 100)%nat with 0%nat by lia. reflexivity.
  - rewrite !length_app, length_drop, !drop_app, length_drop, drop_drop.
    f_equal; f_equal; lia.
Qed.

(** The records a new call appends stay at the end of the history. *)
Lemma last100_app_suffix {A} (h recs : list A) :
  (length recs <= 100)%nat ->
  last100 (h ++ recs) = drop (length h + length recs - 100)%nat h ++ recs.
Proof.
  intros H. unfold last100. rewrite length_app.
  rewrite drop_app.
  replace (length h + length recs - 100 - length h)%nat with 0%nat by lia.
  reflexivity.
Qed.

(** ** The returned text *)

Lemma str_split_sep sep r : str_split sep (sep :: r) = [] :: str_split sep r.
Proof. cbn [str_split]. rewrite N.eqb_refl. reflexivity. Qed.

Lemma str_split_whole sep s :
  Forall (fun c => c <> sep) s -> str_split sep s = [s].
Proof.
  induction 1 as [|c s Hc _ IH]; [reflexivity|].
  cbn [str_split]. rewrite IH.
  destruct (N.eqb_spec c sep); [contradiction | reflexivity].
Qed.

(** The rendering is a non-empty run of decimal digits. *)
Lemma toString10_aux_digits fuel : forall n l,
  (1 <= fuel)%nat -> 0 <= n ->
  exists d rest, toString10_aux fuel n l = Z.to_N (48 + d) :: rest /\ 0 <= d <= 9 /\
    (Forall (fun c => (48 <= c <= 57)%N) l ->
     Forall (fun c => (48 <= c <= 57)%N) (Z.to_N (48 + d) :: rest)).
Proof.
  induction fuel as [|fuel IH]; intros n l Hf Hn; [lia|].
  cbn [toString10_aux].
  pose proof (Z.mod_pos_bound n 10 ltac:(lia)) as Hm.
  destruct (Z.eqb_spec (n / 10) 0) as [E|E].
  - exists (n mod 10), l. split; [reflexivity|]. split; [lia|].
    intros Hl. apply List.Forall_cons; [lia | exact Hl].
  - destruct fuel as [|fuel].
    + cbn [toString10_aux]. exists (n mod 10), l. split; [reflexivity|]. split; [lia|].
      intros Hl. apply List.Forall_cons; [lia | exact Hl].
    + destruct (IH (n / 10) (Z.to_N (48 + n mod 10) :: l) ltac:(lia)
                  ltac:(apply Z.div_pos; lia)) as (d & rest & -> & Hd & Hall).
      exists d, rest. split; [reflexivity|]. split; [exact Hd|].
      intros Hl. apply Hall. apply List.Forall_cons; [lia | exact Hl].
Qed.

Lemma take_until_app sep a b :
  Forall (fun c => c <> sep) a -> take_until sep (a ++ sep :: b) = a.
Proof.
  induction 1 as [|c a Hc _ IH]; cbn [app take_until].
  - rewrite N.eqb_refl. reflexivity.
  - destruct (N.eqb_spec c sep); [contradiction|]. rewrite IH. reflexivity.
Qed.

Lemma after_last_app sep a b :
  Forall (fun c => c <> sep) b -> after_last sep (a ++ sep :: b) = b.
Proof.
  intros Hb. unfold after_last.
  rewrite rev_app_distr. cbn [rev]. rewrite <- app_assoc. cbn [app].
  rewrite take_until_app by (apply List.Forall_rev; exact Hb).
  apply rev_involutive.
Qed.

Lemma str_split_app_sep sep a b :
  Forall (fun c => c <> sep) a -> str_split sep (a ++ sep :: b) = a :: str_split sep b.
Proof.
  induction 1 as [|c a Hc _ IH]; cbn [app].
  - apply str_split_sep.
  - cbn [str_split]. rewrite IH.
    destruct (N.eqb_spec c sep); [contradiction | reflexivity].
Qed.

Lemma str_split_join sep (L : list jsstring) :
  L <> [] -> Forall (Forall (fun c => c <> sep)) L ->
  str_split sep (join [sep] L) = L.
Proof.
  induction L as [|p L IH]; intros Hne HL; [contradiction|].
  apply List.Forall_cons_iff in HL as [Hp HL].
  destruct L as [|q L].
  - cbn [join]. apply str_split_whole, Hp.
  - change (join [sep] (p :: q :: L)) with (p ++ sep :: join [sep] (q :: L)).
    rewrite (str_split_app_sep sep p _ Hp), IH; [reflexivity | discriminate | exact HL].
Qed.

Lemma join_lines sep (L : list jsstring) :
  L <> [] -> [sep] ++ join [sep] L = concat (List.map (app [sep]) L).
Proof.
  induction L as [|p L IH]; intros Hne; [contradiction|].
  destruct L as [|q L].
  - cbn [join List.map concat app]. rewrite app_nil_r. reflexivity.
  - change (join [sep] (p :: q :: L)) with (p ++ [sep] ++ join [sep] (q :: L)).
    rewrite IH by discriminate. reflexivity.
Qed.

Lemma canonical_lowercase_units u :
  canonical_lowercase u = true ->
  Forall (fun c => c <> 10%N /\ c <> 32%N) u.
Proof.
  unfold canonical_lowercase. intros H. apply andb_prop in H as [_ H].
  rewrite forallb_forall in H.
  apply Forall_lookup. intros i c Hl.
  assert (Hp : lowercase_position i c = true).
  { apply H. apply list_elem_of_In. apply list_elem_of_lookup. exists i.
    rewrite list_lookup_imap, Hl. reflexivity. }
  unfold lowercase_position, is_lower_hex in Hp.
  split; intros ->; destruct (hyphen_position i); discriminate Hp.
Qed.

Lemma toString10_digits n :
  0 <= n -> Forall (fun c => (48 <= c <= 57)%N) (toString10 n).
Proof.
  intros Hn. unfold toString10.
  destruct (toString10_aux_digits (S (Z.to_nat (Z.log2 n))) n [] ltac:(lia) Hn)
    as (d & rest & -> & _ & Hall).
  apply Hall, List.Forall_nil.
Qed.

Lemma numbered_line_units i u :
  canonical_lowercase u = true ->
  Forall (fun c => c <> 10%N) (toString10 (Z.of_nat i + 1) ++ lit ". " ++ u).
Proof.
  intros Hu. apply List.Forall_app. split.
  - eapply List.Forall_impl; [|apply toString10_digits; lia]. cbn. intros c Hc. lia.
  - apply List.Forall_app. split.
    + repeat (apply List.Forall_cons; [discriminate|]). apply List.Forall_nil.
    + eapply List.Forall_impl; [|apply canonical_lowercase_units, Hu].
      cbn. intros c [Hc _]. exact Hc.
Qed.

Lemma numbered_line_value i u :
  canonical_lowercase u = true ->
  after_last 32 (toString10 (Z.of_nat i + 1) ++ lit ". " ++ u) = u.
Proof.
  intros Hu.
  change (lit ". " ++ u) with ([46%N] ++ 32%N :: u). rewrite app_assoc.
  apply after_last_app.
  eapply List.Forall_impl; [|apply canonical_lowercase_units, Hu].
  cbn. intros c [_ Hc]. exact Hc.
Qed.

Lemma header_units ver :
  Forall (fun c => c <> 10%N)
    ([29983; 25104; 12373; 12428; 12383]%N ++ lit "UUID (" ++
     version_string ver ++ lit "):").
Proof.
  destruct ver; repeat (apply List.Forall_cons; [discriminate|]); apply List.Forall_nil.
Qed.

Lemma integer_count_is_one n :
  1 <= n <= 10 -> js_strict_eq (num_of_Z n) (num_of_Z 1) = (n =? 1).
Proof.
  intros Hn. assert (H : 0 <= n - 1 < 10) by lia.
  replace n with (n - 1 + 1) by lia. revert H. generalize (n - 1). intros k Hk.
  by_cases_below 10%nat k.
Qed.

(** The text in closed form: the header naming the variant, then the one
    value on the same line, or every value on a line of its own behind its
    index counted from 1. *)
Lemma generate_text_closed ver n uuids :
  1 <= n <= 10 -> Z.of_nat (length uuids) = n ->
  generate_text ver (num_of_Z n) uuids
  = [29983; 25104; 12373; 12428; 12383]%N ++ lit "UUID (" ++
    version_string ver ++ lit "):" ++
    (if n =? 1 then lit " " ++ concat uuids
     else concat (imap (fun i u => [10%N] ++ toString10 (Z.of_nat i + 1)
                                     ++ lit ". " ++ u) uuids)).
Proof.
  intros Hn Hl. unfold generate_text. rewrite (integer_count_is_one n Hn).
  destruct (Z.eqb_spec n 1) as [->|Hne].
  - destruct uuids as [|u [|u' r]]; cbn [length] in Hl; try lia.
    cbn [lookup list_lookup default concat]. unfold id. rewrite app_nil_r.
    rewrite <- !app_assoc. reflexivity.
  - assert (Hlines : imap (fun i u => toString10 (Z.of_nat i + 1) ++ lit ". " ++ u) uuids
                     <> []).
    { destruct uuids; [cbn [length] in Hl; lia | discriminate]. }
    rewrite (join_lines 10 _ Hlines).
    change (List.map (app [10%N])) with (fmap (M:=list) (app [10%N])).
    rewrite fmap_imap. rewrite <- !app_assoc. reflexivity.
Qed.

(** Reading the text back gives the identifiers, in order. *)
Lemma generate_text_lists ver n uuids :
  1 <= n <= 10 -> Z.of_nat (length uuids) = n ->
  Forall (fun u => canonical_lowercase u = true) uuids ->
  listed_values (generate_text ver (num_of_Z n) uuids) = uuids.
Proof.
  intros Hn Hl Hc. unfold generate_text, listed_values.
  rewrite (integer_count_is_one n Hn).
  set (header := [29983; 25104; 12373; 12428; 12383]%N ++ lit "UUID (" ++
                 version_string ver ++ lit "):").
  pose proof (header_units ver) as Hh. fold header in Hh.
  destruct (Z.eqb_spec n 1) as [->|Hne].
  - destruct uuids as [|u [|u' r]]; cbn [length] in Hl; try lia.
    cbn [lookup list_lookup default]. unfold id.
    apply List.Forall_cons_iff in Hc as [Hu _].
    pose proof (canonical_lowercase_units u Hu) as Hunits.
    rewrite str_split_whole.
    + change (lit " " ++ u) with (32%N :: u). rewrite after_last_app; [reflexivity|].
      eapply List.Forall_impl; [|exact Hunits]. cbn. intros c [_ H]. exact H.
    + apply List.Forall_app. split; [exact Hh|].
      apply List.Forall_cons; [discriminate|].
      eapply List.Forall_impl; [|exact Hunits]. cbn. intros c [H _]. exact H.
  - set (lines := imap (fun i u => toString10 (Z.of_nat i + 1) ++ lit ". " ++ u) uuids).
    assert (Hlines : lines <> []).
    { unfold lines. destruct uuids; [cbn [length] in Hl; lia | discriminate]. }
    assert (Hunits : Forall (Forall (fun c => c <> 10%N)) lines).
    { apply Forall_lookup. intros i l Hi. unfold lines in Hi.
      rewrite list_lookup_imap in Hi.
      destruct (uuids !! i) as [u|] eqn:Hu; [|discriminate Hi].
      injection Hi as <-. apply numbered_line_units.
      apply (proj1 (Forall_lookup _ _) Hc i u Hu). }
    change ([10%N] ++ join [10%N] lines) with (10%N :: join [10%N] lines).
    rewrite (str_split_app_sep 10 header _ Hh), (str_split_join 10 lines Hlines Hunits).
    destruct lines as [|l0 ls] eqn:El; [contradiction|]. rewrite <- El. clear El.
    apply list_eq. intros i. unfold lines.
    change (List.map (after_last 32)) with (fmap (M:=list) (after_last 32)).
    rewrite list_lookup_fmap, list_lookup_imap.
    destruct (uuids !! i) as [u|] eqn:Hu; [|reflexivity].
    cbn. f_equal. apply numbered_line_value.
    apply (proj1 (Forall_lookup _ _) Hc i u Hu).
Qed.

(** The handler up to its return, for a loop that ends. *)
Lemma generate_uuid_body_spec fuel ver count w uuids w' :
  generate_uuid_body fuel ver count w = Some (uuids, w') ->
  exists recs,
    uuids = List.map uuid recs /\
    uuidHistory w' = last100 (uuidHistory w ++ recs) /\
    Forall (fun r => version r = ver /\ generated_by ver (uuid r)) recs /\
    (forall i r, recs !! i = Some r ->
       createdAt r = toISOString (clock w (stamp_index ver (clock_reads w) i))).
Proof.
  unfold generate_uuid_body. intros H.
  destruct (generate_loop fuel ver count (num_of_Z 0) ([], w)) as [[us w1]|] eqn:E;
    [|discriminate].
  injection H as <- <-.
  apply generate_loop_iter in E as (m & E).
  destruct (generate_steps_spec ver m [] w) as (recs & w2 & Ei & Hh & _ & Hv & Hc & _).
  rewrite Ei in E. injection E as -> ->.
  exists recs. cbn [uuidHistory set_history].
  rewrite history_trim_last100, Hh. auto.
Qed.

(** C5: for every integral [count] in 1..10 and each variant, the call
    returns exactly [count] identifiers, each in canonical form (lowercase
    8-4-4-4-12 hexadecimal), and appends exactly [count] records to the
    history, in order, each carrying its identifier, the requested variant
    and the clock reading taken when it was generated; older records are
    then evicted from the front.  The returned text lists exactly these
    identifiers, in order: it is the header naming the variant followed by
    the one identifier on the same line when [count] is 1, and otherwise
    by one line per identifier, each behind its index counted from 1. *)
Theorem C5_generate_count_identifiers (n : Z) (ver : Version) (fuel : nat) (w : World) :
  1 <= n <= 10 -> (11 <= fuel)%nat ->
  exists uuids recs w',
    generate_uuid_body fuel ver (num_of_Z n) w = Some (uuids, w') /\
    generate_uuid fuel ver (num_of_Z n) w
      = Some (generate_text ver (num_of_Z n) uuids, w') /\
    Z.of_nat (length uuids) = n /\
    Forall (fun u => canonical_lowercase u = true) uuids /\
    Z.of_nat (length recs) = n /\
    List.map uuid recs = uuids /\
    Forall (fun r => version r = ver) recs /\
    (forall i r, recs !! i = Some r ->
       createdAt r = toISOString (clock w (stamp_index ver (clock_reads w) i))) /\
    uuidHistory w' = last100 (uuidHistory w ++ recs) /\
    uuidHistory w'
      = drop (length (uuidHistory w) + length recs - 100)%nat (uuidHistory w) ++ recs /\
    listed_values (generate_text ver (num_of_Z n) uuids) = uuids /\
    generate_text ver (num_of_Z n) uuids
    = [29983; 25104; 12373; 12428; 12383]%N ++ lit "UUID (" ++
      version_string ver ++ lit "):" ++
      (if n =? 1 then lit " " ++ concat uuids
       else concat (imap (fun i u => [10%N] ++ toString10 (Z.of_nat i + 1)
                                       ++ lit ". " ++ u) uuids)).
Proof.
  intros Hn Hf.
  pose proof (generate_loop_integer ver n Hn (Z.to_nat n) 0 ([], w) fuel
                ltac:(lia) ltac:(lia) ltac:(lia)) as E.
  destruct (generate_steps_spec ver (Z.to_nat n) [] w)
    as (recs & w1 & Ei & Hh & Hl & Hv & Hc & _).
  rewrite Ei in E. cbn [app] in E.
  exists (List.map uuid recs), recs, (set_history (history_trim (uuidHistory w1)) w1).
  assert (Eb : generate_uuid_body fuel ver (num_of_Z n) w
               = Some (List.map uuid recs, set_history (history_trim (uuidHistory w1)) w1)).
  { unfold generate_uuid_body. rewrite E. reflexivity. }
  assert (Hlen : Z.of_nat (length (List.map uuid recs)) = n)
    by (rewrite List.length_map; lia).
  assert (Hcan : Forall (fun u => canonical_lowercase u = true) (List.map uuid recs)).
  { apply List.Forall_map. eapply List.Forall_impl; [|exact Hv].
    intros r [_ Hg]. eapply generated_lowercase, Hg. }
  split; [exact Eb|].
  split; [unfold generate_uuid; rewrite Eb; reflexivity|].
  split; [exact Hlen|].
  split; [exact Hcan|].
  split; [lia|]. split; [reflexivity|].
  split; [eapply List.Forall_impl; [|exact Hv]; intros r [Hr _]; exact Hr|].
  split; [exact Hc|].
  cbn [uuidHistory set_history]. rewrite history_trim_last100, Hh.
  split; [reflexivity|]. split; [apply last100_app_suffix; lia|].
  split; [exact (generate_text_lists ver n _ Hn Hlen Hcan)|].
  exact (generate_text_closed ver n _ Hn Hlen).
Qed.

(** C3: every identifier a [generate_uuid] call produces (either variant,
    any count in 1..10) is accepted by [validate_uuid], and the version it
    detects is the variant that generated it. *)
Theorem C3_generated_identifiers_validate (n : Z) (ver : Version) (fuel : nat) (w : World) :
  1 <= n <= 10 -> (11 <= fuel)%nat ->
  exists uuids w',
    generate_uuid_body fuel ver (num_of_Z n) w = Some (uuids, w') /\
    Z.of_nat (length uuids) = n /\
    Forall (fun u => validate_uuid_check u = (true, Some (version_string ver))) uuids.
Proof.
  intros Hn Hf.
  pose proof (generate_loop_integer ver n Hn (Z.to_nat n) 0 ([], w) fuel
                ltac:(lia) ltac:(lia) ltac:(lia)) as E.
  destruct (generate_steps_spec ver (Z.to_nat n) [] w)
    as (recs & w1 & Ei & Hh & Hl & Hv & Hc & _).
  rewrite Ei in E. cbn [app] in E.
  exists (List.map uuid recs), (set_history (history_trim (uuidHistory w1)) w1).
  split; [unfold generate_uuid_body; rewrite E; reflexivity|].
  split; [rewrite List.length_map; lia|].
  apply List.Forall_map. eapply List.Forall_impl; [|exact Hv].
  intros r [_ Hg]. apply generated_validates, Hg.
Qed.

Lemma C5_witness :
  exists uuids text w',
    generate_uuid_body 11 v7 (num_of_Z 3) sample_world = Some (uuids, w') /\
    generate_uuid 11 v7 (num_of_Z 3) sample_world = Some (text, w') /\
    listed_values text = uuids /\
    Z.of_nat (length uuids) = 3 /\
    Forall (fun u => canonical_lowercase u = true) uuids /\
    Z.of_nat (length (uuidHistory w')) = 3.
Proof.
  destruct (C5_generate_count_identifiers 3 v7 11 sample_world ltac:(lia) ltac:(lia))
    as (uuids & recs & w' & E & G & L & C & Lr & _ & _ & _ & H & _ & T & _).
  exists uuids, (generate_text v7 (num_of_Z 3) uuids), w'.
  split; [exact E|]. split; [exact G|]. split; [exact T|].
  split; [exact L|]. split; [exact C|].
  rewrite H. cbn [sample_world uuidHistory app].
  rewrite last100_short by lia. exact Lr.
Defined.

Lemma C3_witness :
  exists uuids w',
    generate_uuid_body 11 v4 (num_of_Z 2) sample_world = Some (uuids, w') /\
    Z.of_nat (length uuids) = 2 /\
    Forall (fun u => validate_uuid_check u = (true, Some (version_string v4))) uuids.
Proof.
  apply (C3_generated_identifiers_validate 2 v4 11 sample_world); lia.
Defined.

(** ** Sequences of calls *)

Lemma generate_calls_spec fuel calls : forall w outs w' (prev : list jsstring),
  generate_calls fuel calls w = Some (outs, w') ->
  List.map uuid (uuidHistory w) = last100 prev ->
  List.map uuid (uuidHistory w') = last100 (prev ++ concat outs).
Proof.
  induction calls as [|[ver count] calls IH]; intros w outs w' prev H Hp.
  - injection H as <- <-. cbn [concat]. rewrite app_nil_r. exact Hp.
  - cbn [generate_calls] in H.
    destruct (generate_uuid_body fuel ver count w) as [[uuids w1]|] eqn:Eb; [|discriminate].
    destruct (generate_calls fuel calls w1) as [[outs1 w2]|] eqn:Ec; [|discriminate].
    injection H as <- <-.
    apply generate_uuid_body_spec in Eb as (recs & -> & Hh & _).
    cbn [concat]. rewrite app_assoc.
    apply (IH w1 outs1 w2 (prev ++ List.map uuid recs) Ec).
    rewrite Hh, last100_map, List.map_app, Hp.
    apply last100_app.
Qed.

(** C2: after any sequence of [generate_uuid] calls, starting from the
    empty history of a fresh process, the history holds at most 100
    records and they are the last generated ones in generation order
    (first in, first out); once 150 identifiers were generated in total,
    the resource returns records 131 to 150 in insertion order. *)
Theorem C2_history_bounded_fifo (fuel : nat) (calls : list (Version * Number))
    (w w' : World) (outs : list (list jsstring)) :
  uuidHistory w = [] ->
  generate_calls fuel calls w = Some (outs, w') ->
  (length (uuidHistory w') <= 100)%nat /\
  List.map uuid (uuidHistory w') = last100 (concat outs) /\
  (length (concat outs) = 150%nat ->
     totalCount (uuid_history w') = 100%nat /\
     List.map uuid (history (uuid_history w')) = drop 130 (concat outs) /\
     length (history (uuid_history w')) = 20%nat).
Proof.
  intros H0 H.
  pose proof (generate_calls_spec fuel calls w outs w' [] H) as Hs.
  rewrite H0 in Hs. specialize (Hs eq_refl). cbn [app] in Hs.
  assert (Hlen : length (uuidHistory w') = length (last100 (concat outs))).
  { rewrite <- Hs. rewrite List.length_map. reflexivity. }
  split; [rewrite Hlen; apply last100_length|].
  split; [exact Hs|].
  intros H150.
  assert (L100 : length (uuidHistory w') = 100%nat).
  { rewrite Hlen. unfold last100. rewrite length_drop. lia. }
  unfold uuid_history. cbn [totalCount history].
  split; [exact L100|].
  unfold array_slice_from. rewrite L100.
  change (Z.to_nat (if -20 <? 0 then Z.max (Z.of_nat 100 + -20) 0
                    else Z.min (-20) (Z.of_nat 100))) with 80%nat.
  split.
  - change (List.map uuid) with (fmap (M:=list) uuid).
    rewrite fmap_drop. change (fmap (M:=list) uuid) with (List.map uuid).
    rewrite Hs. unfold last100. rewrite H150, drop_drop. reflexivity.
  - rewrite length_drop. lia.
Qed.

Lemma C2_witness :
  exists outs w',
    generate_calls 11 (replicate 15 (v7, num_of_Z 10)) sample_world = Some (outs, w') /\
    length (concat outs) = 150%nat /\
    (length (uuidHistory w') <= 100)%nat /\
    List.map uuid (history (uuid_history w')) = drop 130 (concat outs).
Proof.
  destruct (generate_calls 11 (replicate 15 (v7, num_of_Z 10)) sample_world)
    as [[outs w']|] eqn:E;
    [|apply (f_equal (fun o : option (list (list jsstring) * World) =>
                        match o with Some _ => true | None => false end)) in E;
      vm_compute in E; discriminate E].
  exists outs, w'. split; [reflexivity|].
  assert (L : length (concat outs) = 150%nat).
  { apply (f_equal (option_map (fun p => length (concat (fst p))))) in E.
    vm_compute in E. injection E as E. symmetry. exact E. }
  split; [exact L|].
  destruct (C2_history_bounded_fifo 11 _ sample_world w' outs eq_refl E) as (B & _ & F).
  split; [exact B|]. apply F. exact L.
Defined.

(** ** The input schema of [generate_uuid] *)

(** The declared range: below 1 and above 10 are rejected, as are NaN and
    values that are not numbers; an absent count is 1. *)
Lemma schema_count_range v x :
  schema_count v = Some x ->
  js_isNaN x = false /\ js_lt x (num_of_Z 1) = false /\ js_gt x (num_of_Z 10) = false.
Proof.
  destruct v as [| |b|y|s]; cbn [schema_count]; try discriminate.
  - intros H. injection H as <-. repeat split; reflexivity.
  - destruct (js_isNaN y) eqn:E1; [discriminate|].
    destruct (js_lt y (num_of_Z 1)) eqn:E2; [discriminate|].
    destruct (js_gt y (num_of_Z 10)) eqn:E3; [discriminate|].
    intros H. injection H as <-. auto.
Qed.

(** A schema violation is answered before the handler runs: the world,
    and so the history, is untouched. *)
Lemma generate_uuid_rejects fuel args w :
  schema_count (get_prop args (lit "count")) = None ->
  server_handle fuel createUuidServer (tools_call (lit "generate_uuid") args) w
  = Some (rpc_error InvalidParams, w).
Proof.
  intros H. cbn [server_handle].
  change (registered (lit "generate_uuid") (tools createUuidServer)) with true.
  change (str_eqb (lit "generate_uuid") (lit "generate_uuid")) with true.
  cbn [negb]. rewrite H.
  destruct (schema_version (get_prop args (lit "version"))); reflexivity.
Qed.

Lemma generate_loop_step fuel ver count i st :
  js_lt i count = true ->
  generate_loop (S fuel) ver count i st
  = generate_loop fuel ver count (js_add i (num_of_Z 1)) (generate_step ver st).
Proof. intros H. cbn [generate_loop]. rewrite H. reflexivity. Qed.

Lemma generate_loop_stop fuel ver count i st :
  js_lt i count = false -> generate_loop (S fuel) ver count i st = Some st.
Proof. intros H. cbn [generate_loop]. rewrite H. reflexivity. Qed.

(** C8, the part the code does not honour: the count 2.5 passes the
    declared schema ([z.number().min(1).max(10)] has no integrality
    check), the handler runs, and three identifiers are generated and
    recorded. *)
Theorem C8_fractional_count_accepted (w : World) :
  let two_and_a_half := js_div (num_of_Z 5) (num_of_Z 2) in
  exists uuids w',
    server_handle 11 createUuidServer
      (tools_call (lit "generate_uuid") [(lit "count", JsNumber two_and_a_half)]) w
    = Some (result_text (generate_text v4 two_and_a_half uuids), w') /\
    length uuids = 3%nat /\
    Forall (fun u => validate_uuid_check u = (true, Some (lit "v4"))) uuids /\
    exists recs, List.map uuid recs = uuids /\
                 uuidHistory w' = last100 (uuidHistory w ++ recs).
Proof.
  intros c.
  assert (E : generate_loop 11 v4 c (num_of_Z 0) ([], w)
              = Some (Nat.iter 3 (generate_step v4) ([], w))).
  { rewrite generate_loop_step by (vm_compute; reflexivity).
    rewrite generate_loop_step by (vm_compute; reflexivity).
    rewrite generate_loop_step by (vm_compute; reflexivity).
    rewrite generate_loop_stop by (vm_compute; reflexivity).
    reflexivity. }
  destruct (generate_steps_spec v4 3 [] w) as (recs & w1 & Ei & Hh & Hl & Hv & _).
  rewrite Ei in E. cbn [app] in E.
  exists (List.map uuid recs), (set_history (history_trim (uuidHistory w1)) w1).
  split.
  - cbn [server_handle].
    change (registered (lit "generate_uuid") (tools createUuidServer)) with true.
    change (str_eqb (lit "generate_uuid") (lit "generate_uuid")) with true.
    cbn [negb].
    change (get_prop [(lit "count", JsNumber c)] (lit "version")) with JsUndefined.
    change (get_prop [(lit "count", JsNumber c)] (lit "count")) with (JsNumber c).
    change (schema_version JsUndefined) with (Some v4).
    replace (schema_count (JsNumber c)) with (Some c) by (vm_compute; reflexivity).
    unfold generate_uuid, generate_uuid_body. rewrite E. reflexivity.
  - split; [rewrite List.length_map; exact Hl|].
    split.
    + apply List.Forall_map. eapply List.Forall_impl; [|exact Hv].
      intros r [_ Hg]. apply (generated_validates v4), Hg.
    + exists recs. split; [reflexivity|].
      cbn [uuidHistory set_history]. rewrite history_trim_last100, Hh. reflexivity.
Qed.

(** The parts of the same claim the code honours: counts 0 and 11 are
    rejected with [InvalidParams] and leave the world alone; an absent
    count runs the handler with count 1. *)
Lemma generate_uuid_schema_bounds (w : World) :
  server_handle 11 createUuidServer
    (tools_call (lit "generate_uuid") [(lit "count", JsNumber (num_of_Z 0))]) w
  = Some (rpc_error InvalidParams, w) /\
  server_handle 11 createUuidServer
    (tools_call (lit "generate_uuid") [(lit "count", JsNumber (num_of_Z 11))]) w
  = Some (rpc_error InvalidParams, w) /\
  server_handle 11 createUuidServer (tools_call (lit "generate_uuid") []) w
  = match generate_uuid 11 v4 (num_of_Z 1) w with
    | Some (text, w') => Some (result_text text, w')
    | None => None
    end.
Proof.
  split; [apply generate_uuid_rejects; vm_compute; reflexivity|].
  split; [apply generate_uuid_rejects; vm_compute; reflexivity|].
  reflexivity.
Qed.

(** ** The session gate of [POST /mcp] *)

Lemma sessions_has_get m sid :
  sessions_has m sid = true <-> exists t, sessions_get m sid = Some t.
Proof.
  unfold sessions_has. destruct (sessions_get m sid) as [t|].
  - split; [intros _; exists t; reflexivity | reflexivity].
  - split; [discriminate | intros [t H]; discriminate].
Qed.

(** A request on an active transport never changes the map. *)
Lemma handleRequest_active fuel t id req st r st' :
  transport_sessionId t = Some id ->
  handleRequest fuel t req st = Some (r, st') ->
  sessions st' = sessions st.
Proof.
  unfold handleRequest. intros -> H.
  destruct (isInitializeRequest req).
  - injection H as <- <-. reflexivity.
  - destruct (server_handle fuel (transport_server t) req (world st)) as [[r1 w1]|];
      [|discriminate].
    injection H as <- <-. reflexivity.
Qed.

(** C9: on [POST /mcp], a request that is not a handshake and carries no
    token, or any request carrying a token absent from the session map, is
    answered with HTTP 400 and JSON-RPC code -32000 and leaves the state,
    hence the session map, unchanged; the map changes only for a handshake
    arriving without a token.  A token is a non-empty header value: the
    code tests [sessionId] for truthiness. *)
Theorem C9_invalid_session_rejected (fuel : nat) (req : HttpRequest) (st : HttpState) :
  sessions_wf (sessions st) ->
  ((truthy (mcp_session_id req) = false /\ isInitializeRequest (body req) = false) \/
   (truthy (mcp_session_id req) = true /\
    sessions_get (sessions st) (mcp_session_id req) = None) ->
   post_mcp fuel req st = Some (http_error 400 (-32000) invalid_session_text, st)) /\
  (forall r st', post_mcp fuel req st = Some (r, st') ->
     sessions st' <> sessions st ->
     truthy (mcp_session_id req) = false /\ isInitializeRequest (body req) = true).
Proof.
  intros Hwf. split.
  - intros [[Ht Hi]|[Ht Hg]]; unfold post_mcp, sessions_has.
    + rewrite Ht, Hi. reflexivity.
    + rewrite Ht, Hg. reflexivity.
  - intros r st' H Hne. unfold post_mcp in H.
    destruct (truthy (mcp_session_id req)) eqn:Ht; cbn [andb negb] in H.
    + exfalso.
      destruct (sessions_has (sessions st) (mcp_session_id req)) eqn:Hh.
      * destruct (sessions_get (sessions st) (mcp_session_id req)) as [t|] eqn:Hg;
          [|discriminate].
        destruct (mcp_session_id req) as [sid|]; [|discriminate].
        cbn [sessions_get] in Hg.
        apply Hne. eapply handleRequest_active; [apply (Hwf sid t Hg) | exact H].
      * injection H as <- <-. apply Hne. reflexivity.
    + destruct (sessions_has (sessions st) (mcp_session_id req)) eqn:Hh;
        cbn [andb] in H.
      * destruct (isInitializeRequest (body req)) eqn:Hi; [auto|].
        injection H as <- <-. exfalso. apply Hne. reflexivity.
      * destruct (isInitializeRequest (body req)) eqn:Hi; [auto|].
        injection H as <- <-. exfalso. apply Hne. reflexivity.
Qed.

Lemma C9_witness :
  let st := {| sessions := ∅; world := sample_world |} in
  let req := {| mcp_session_id := Some (lit "no-such-session");
                body := tools_call (lit "generate_uuid") [] |} in
  post_mcp 11 req st = Some (http_error 400 (-32000) invalid_session_text, st).
Proof.
  intros st req.
  apply (C9_invalid_session_rejected 11 req st).
  - intros id t H. unfold st in H. cbn [sessions] in H.
    rewrite lookup_empty in H. discriminate H.
  - right. split; reflexivity.
Defined.

(** ** One history for all sessions *)

(** C1, as the code behaves: the history array is declared once per
    module, outside [createUuidServer], so every session's server reads
    and writes the same array.  Two handshakes mint two distinct sessions;
    a history read through the second reports 0 records, then the first
    session generates one identifier, and the same read through the second
    session reports 1 record. *)
Theorem C1_history_shared_across_sessions :
  let st0 := {| sessions := ∅; world := sample_world |} in
  let handshake := {| mcp_session_id := None; body := initialize |} in
  let a := lit "3c3c3c3c-3c3c-4c3c-bc3c-3c3c3c3c3c3c" in
  let b := lit "a5a5a5a5-a5a5-45a5-a5a5-a5a5a5a5a5a5" in
  let read_b := {| mcp_session_id := Some b;
                   body := resources_read (lit "uuid://history") |} in
  let generate_a := {| mcp_session_id := Some a;
                       body := tools_call (lit "generate_uuid") [] |} in
  a <> b /\
  option_map (fun p => List.map minted_token (fst p))
    (post_all 11 [handshake; handshake] st0) = Some [Some a; Some b] /\
  option_map (fun p => List.map observed_count (fst p))
    (post_all 11 [handshake; handshake; read_b; generate_a; read_b] st0)
  = Some [None; None; Some 0%nat; None; Some 1%nat].
Proof.
  intros st0 handshake a b read_b generate_a.
  split; [discriminate|].
  split; vm_compute; reflexivity.
Qed.

(** ** Sessions: handshake, use, termination *)

Lemma truthy_canonical u : canonical_lowercase u = true -> truthy (Some u) = true.
Proof.
  unfold canonical_lowercase. intros H. apply andb_prop in H as [H _].
  destruct u; [discriminate H | reflexivity].
Qed.

Lemma randomUUID_token w :
  truthy (Some (fst (randomUUID w))) = true /\
  validate_uuid_check (fst (randomUUID w)) = (true, Some (lit "v4")).
Proof.
  destruct (randomUUID_marked w) as (bytes & E & Hm). rewrite E. cbn [fst].
  split.
  - apply truthy_canonical. eapply marked_lowercase, Hm.
  - apply (generated_validates v4). exists bytes. split; [reflexivity | exact Hm].
Qed.

Lemma randomUUID_history w : uuidHistory (snd (randomUUID w)) = uuidHistory w.
Proof. destruct (randomUUID_marked w) as (bytes & E & _). rewrite E. reflexivity. Qed.

(** The create branch of [app.post]: what a handshake without a token
    returns and stores. *)
Lemma post_mcp_handshake (fuel : nat) (req : HttpRequest) (st : HttpState) :
  truthy (mcp_session_id req) = false ->
  isInitializeRequest (body req) = true ->
  post_mcp fuel req st
  = Some (http_ok (Some (fst (randomUUID (world st)))) result_initialize,
          {| sessions :=
               <[fst (randomUUID (world st)) :=
                   {| transport_sessionId := Some (fst (randomUUID (world st)));
                      transport_server := createUuidServer |}]> (sessions st);
             world := snd (randomUUID (world st)) |}).
Proof.
  intros Ht Hi. unfold post_mcp. rewrite Ht, Hi. cbn [andb negb].
  unfold handleRequest. cbn [transport_sessionId transport_server]. rewrite Hi.
  destruct (randomUUID (world st)); reflexivity.
Qed.

(** A handshake without a token always mints a session: the token is a
    fresh draw of [randomUUID], the response carries it, the transport is
    stored under it with a server of its own, and the history is left as
    it was.  An empty header value counts as no token. *)
Theorem handshake_mints_session (fuel : nat) (req : HttpRequest) (st : HttpState) :
  truthy (mcp_session_id req) = false ->
  isInitializeRequest (body req) = true ->
  exists id t st',
    post_mcp fuel req st = Some (http_ok (Some id) result_initialize, st') /\
    id = fst (randomUUID (world st)) /\
    validate_uuid_check id = (true, Some (lit "v4")) /\
    sessions st' = <[id := t]> (sessions st) /\
    sessions st' !! id = Some t /\
    transport_sessionId t = Some id /\
    transport_server t = createUuidServer /\
    uuidHistory (world st') = uuidHistory (world st).
Proof.
  intros Ht Hi. rewrite (post_mcp_handshake fuel req st Ht Hi).
  eexists _, _, _. split; [reflexivity|]. split; [reflexivity|].
  split; [apply randomUUID_token|].
  cbn [sessions world]. split; [reflexivity|].
  split; [apply lookup_insert_eq|].
  split; [reflexivity|]. split; [reflexivity|]. apply randomUUID_history.
Qed.

Lemma handshake_mints_witness :
  exists id st',
    post_mcp 11 {| mcp_session_id := Some []; body := initialize |}
      (initial_state sample_world) = Some (http_ok (Some id) result_initialize, st') /\
    sessions st' !! id = Some {| transport_sessionId := Some id;
                                 transport_server := createUuidServer |}.
Proof.
  destruct (handshake_mints_session 11 {| mcp_session_id := Some []; body := initialize |}
              (initial_state sample_world) eq_refl eq_refl)
    as (id & t & st' & E & _ & _ & _ & L & Hid & Hs).
  exists id, st'. split; [exact E|].
  rewrite L. destruct t as [sid srv]. cbn in Hid, Hs. destruct Hs as [Hs _].
  subst. reflexivity.
Defined.

(** The routes keep the map well formed. *)
Lemma post_mcp_sessions_ok fuel req st r st' :
  sessions_ok (sessions st) ->
  post_mcp fuel req st = Some (r, st') ->
  sessions_ok (sessions st').
Proof.
  intros Hok H.
  assert (Hwf : sessions_wf (sessions st)) by (intros id t Hl; apply (Hok id t Hl)).
  destruct (truthy (mcp_session_id req)) eqn:Ht.
  - unfold post_mcp in H. rewrite Ht in H. cbn [andb negb] in H.
    destruct (sessions_has (sessions st) (mcp_session_id req)) eqn:Hh.
    + destruct (sessions_get (sessions st) (mcp_session_id req)) as [t|] eqn:Hg;
        [|discriminate].
      destruct (mcp_session_id req) as [sid|]; [|discriminate].
      cbn [sessions_get] in Hg.
      rewrite (handleRequest_active fuel t sid (body req) st r st' (Hwf sid t Hg) H).
      exact Hok.
    + injection H as _ <-. exact Hok.
  - destruct (isInitializeRequest (body req)) eqn:Hi.
    + rewrite (post_mcp_handshake fuel req st Ht Hi) in H.
      injection H as _ <-. cbn [sessions].
      intros id' t' Hl.
      destruct (decide (fst (randomUUID (world st)) = id')) as [<-|Hne].
      * rewrite lookup_insert_eq in Hl. injection Hl as <-.
        split; [reflexivity|]. split; [reflexivity|].
        apply randomUUID_token.
      * rewrite lookup_insert_ne in Hl by exact Hne. apply (Hok id' t' Hl).
    + unfold post_mcp in H. rewrite Ht, Hi in H. cbn [andb negb] in H.
      injection H as _ <-. exact Hok.
Qed.

Lemma delete_mcp_sessions_ok sid st :
  sessions_ok (sessions st) -> sessions_ok (sessions (snd (delete_mcp sid st))).
Proof.
  intros Hok. unfold delete_mcp.
  destruct (sessions_get (sessions st) sid) as [t|]; [|exact Hok].
  destruct (transport_sessionId t) as [id|] eqn:Hid; [|exact Hok].
  cbn [snd sessions]. unfold transport_onclose, onsessionclosed. rewrite Hid.
  assert (Hd : sessions_ok (delete id (sessions st))).
  { intros id' t' Hl. apply lookup_delete_Some in Hl as [_ Hl]. apply (Hok id' t' Hl). }
  destruct (truthy (Some id)); [|exact Hd].
  intros id' t' Hl. apply lookup_delete_Some in Hl as [_ Hl]. apply (Hd id' t' Hl).
Qed.

Lemma route_state_sessions_ok fuel c st st' :
  sessions_ok (sessions st) -> route_state fuel c st = Some st' ->
  sessions_ok (sessions st').
Proof.
  intros Hok H. destruct c as [req|sid|sid]; cbn [route_state] in H.
  - destruct (post_mcp fuel req st) as [[r st1]|] eqn:E; [|discriminate].
    injection H as <-. eapply post_mcp_sessions_ok; [exact Hok | exact E].
  - injection H as <-. unfold get_mcp.
    destruct (sessions_get (sessions st) sid); exact Hok.
  - injection H as <-. apply delete_mcp_sessions_ok, Hok.
Qed.

(** In every state the server can reach from its start, whatever the
    clients send over the three routes, each stored transport sits under
    its own token, the token is a non-empty string, and the transport has
    a server built by [createUuidServer]. *)
Theorem reachable_sessions_ok (fuel : nat) (cs : list ClientRequest)
    (w : World) (st : HttpState) :
  route_all fuel cs (initial_state w) = Some st ->
  sessions_ok (sessions st) /\ sessions_wf (sessions st).
Proof.
  assert (G : forall st0, sessions_ok (sessions st0) ->
                route_all fuel cs st0 = Some st -> sessions_ok (sessions st)).
  { induction cs as [|c cs IH]; intros st0 Hok H; cbn [route_all] in H.
    - injection H as <-. exact Hok.
    - destruct (route_state fuel c st0) as [st1|] eqn:E; [|discriminate].
      apply (IH st1); [|exact H].
      eapply route_state_sessions_ok; [exact Hok | exact E]. }
  intros H.
  assert (Hok : sessions_ok (sessions st)).
  { apply (G (initial_state w)); [|exact H].
    intros id t Hl. cbn [initial_state sessions] in Hl.
    rewrite lookup_empty in Hl. discriminate Hl. }
  split; [exact Hok|]. intros id t Hl. apply (Hok id t Hl).
Qed.

Lemma reachable_sessions_ok_witness :
  exists st,
    route_all 11 [POST handshake; GET None; POST handshake; DELETE (Some [])]
      (initial_state sample_world) = Some st /\
    sessions_ok (sessions st).
Proof.
  destruct (route_all 11 [POST handshake; GET None; POST handshake; DELETE (Some [])]
              (initial_state sample_world)) as [st|] eqn:E;
    [|apply (f_equal (fun o : option HttpState =>
                        match o with Some _ => true | None => false end)) in E;
      vm_compute in E; discriminate E].
  exists st. split; [reflexivity|].
  apply (reachable_sessions_ok 11 _ sample_world st E).
Defined.

Lemma post_mcp_active fuel id t b st :
  sessions_ok (sessions st) -> sessions st !! id = Some t ->
  isInitializeRequest b = false ->
  post_mcp fuel {| mcp_session_id := Some id; body := b |} st
  = match server_handle fuel createUuidServer b (world st) with
    | Some (r, w') =>
        Some (http_ok (Some id) r, {| sessions := sessions st; world := w' |})
    | None => None
    end.
Proof.
  intros Hok Hl Hb.
  destruct (Hok id t Hl) as (Hid & Hsrv & Ht).
  unfold post_mcp, sessions_has. cbn [mcp_session_id body sessions_get].
  rewrite Ht, Hl. cbn [andb].
  unfold handleRequest. rewrite Hid, Hb, Hsrv. reflexivity.
Qed.

(** Handshake, then use: the token a handshake returns is accepted by the
    next request, which reaches the dispatcher of that session's server
    and is answered under the same token. *)
Theorem handshake_then_request (fuel : nat) (st : HttpState) (b : RpcRequest) :
  isInitializeRequest b = false ->
  exists id st1,
    post_mcp fuel handshake st = Some (http_ok (Some id) result_initialize, st1) /\
    post_mcp fuel {| mcp_session_id := Some id; body := b |} st1
    = match server_handle fuel createUuidServer b (world st1) with
      | Some (r, w') =>
          Some (http_ok (Some id) r, {| sessions := sessions st1; world := w' |})
      | None => None
      end.
Proof.
  intros Hb.
  eexists _, _. split; [apply (post_mcp_handshake fuel handshake st); reflexivity|].
  pose proof (randomUUID_token (world st)) as [Ht _].
  unfold post_mcp, sessions_has. cbn [mcp_session_id body sessions_get sessions].
  rewrite Ht, lookup_insert_eq. cbn [andb].
  unfold handleRequest. cbn [transport_sessionId transport_server].
  rewrite Hb. reflexivity.
Qed.

Lemma handshake_then_request_witness :
  exists id st1 st2,
    post_mcp 11 handshake (initial_state sample_world)
      = Some (http_ok (Some id) result_initialize, st1) /\
    post_mcp 11 (read_history id) st1
      = Some (http_ok (Some id) (result_resource {| totalCount := 0; history := [] |}), st2).
Proof.
  destruct (handshake_then_request 11 (initial_state sample_world)
              (resources_read (lit "uuid://history")) eq_refl)
    as (id & st1 & E1 & E2).
  pose proof (post_mcp_handshake 11 handshake (initial_state sample_world)
                eq_refl eq_refl) as E1'.
  rewrite E1 in E1'. injection E1' as Eid Est.
  assert (Hh : uuidHistory (world st1) = []).
  { rewrite Est. cbn [world]. apply randomUUID_history. }
  exists id, st1, {| sessions := sessions st1; world := world st1 |}.
  split; [exact E1|].
  unfold read_history. rewrite E2.
  cbn [server_handle]. change (registered _ _) with true. cbv iota.
  unfold uuid_history. rewrite Hh. reflexivity.
Defined.

(** A DELETE on an active token: the transport closes the session. *)
Lemma delete_mcp_active (id : jsstring) (t : Transport) (st : HttpState) :
  sessions_ok (sessions st) -> sessions st !! id = Some t ->
  delete_mcp (Some id) st
  = (route_closed id, {| sessions := delete id (sessions st); world := world st |}).
Proof.
  intros Hok Hl. destruct (Hok id t Hl) as (Hid & Hsrv & Ht).
  unfold delete_mcp. cbn [sessions_get]. rewrite Hl, Hid.
  unfold transport_onclose, onsessionclosed. rewrite Hid, Ht.
  rewrite delete_delete_eq. reflexivity.
Qed.

(** Termination: a DELETE on an active token removes exactly that entry
    and touches nothing else; afterwards the token is dead on all three
    verbs: POST, GET and a second DELETE are answered 400 with code
    -32000 and change nothing. *)
Theorem delete_terminates_session (fuel : nat) (id : jsstring) (t : Transport)
    (st : HttpState) :
  sessions_ok (sessions st) -> sessions st !! id = Some t ->
  exists st',
    delete_mcp (Some id) st = (route_closed id, st') /\
    sessions st' = delete id (sessions st) /\ world st' = world st /\
    (forall id', id' <> id -> sessions st' !! id' = sessions st !! id') /\
    (forall b, post_mcp fuel {| mcp_session_id := Some id; body := b |} st'
               = Some (http_error 400 (-32000) invalid_session_text, st')) /\
    get_mcp (Some id) st' = (route_error 400 (-32000) (lit "Invalid session"), st') /\
    delete_mcp (Some id) st' = (route_error 400 (-32000) (lit "Invalid session"), st').
Proof.
  intros Hok Hl. destruct (Hok id t Hl) as (Hid & Hsrv & Ht).
  exists {| sessions := delete id (sessions st); world := world st |}.
  assert (Hgone : (delete id (sessions st) : gmap jsstring Transport) !! id = None)
    by apply lookup_delete_eq.
  split; [exact (delete_mcp_active id t st Hok Hl)|].
  cbn [sessions world]. split; [reflexivity|]. split; [reflexivity|].
  split; [intros id' Hne; apply lookup_delete_ne; congruence|].
  split.
  { intros b. unfold post_mcp, sessions_has. cbn [mcp_session_id body sessions_get sessions].
    rewrite Ht, Hgone. reflexivity. }
  split.
  - unfold get_mcp. cbn [sessions_get sessions]. rewrite Hgone. reflexivity.
  - unfold delete_mcp. cbn [sessions_get sessions]. rewrite Hgone. reflexivity.
Qed.

Lemma delete_terminates_witness :
  exists id st1 st2,
    post_mcp 11 handshake (initial_state sample_world)
      = Some (http_ok (Some id) result_initialize, st1) /\
    delete_mcp (Some id) st1 = (route_closed id, st2) /\
    post_mcp 11 (read_history id) st2
      = Some (http_error 400 (-32000) invalid_session_text, st2).
Proof.
  pose proof (post_mcp_handshake 11 handshake (initial_state sample_world)
                eq_refl eq_refl) as E1.
  match type of E1 with
  | _ = Some (http_ok (Some ?i) _, ?s) => set (id := i) in *; set (st1 := s) in *
  end.
  set (t := {| transport_sessionId := Some id; transport_server := createUuidServer |}).
  assert (Hl : sessions st1 !! id = Some t) by apply lookup_insert_eq.
  assert (Hok : sessions_ok (sessions st1)).
  { eapply post_mcp_sessions_ok; [|exact E1].
    intros i x Hx. cbn [initial_state sessions] in Hx.
    rewrite lookup_empty in Hx. discriminate Hx. }
  destruct (delete_terminates_session 11 id t st1 Hok Hl)
    as (st2 & E2 & _ & _ & _ & E3 & _).
  exists id, st1, st2. split; [exact E1|]. split; [exact E2|]. apply E3.
Defined.

(** The liveness endpoint counts the live tokens: none at start, one less
    after a DELETE on an active token, one more after a handshake whose
    fresh token is not in the map; a handshake that draws a token already
    in the map overwrites that entry and leaves the count as it was. *)
Theorem health_counts_sessions (fuel : nat) (st : HttpState) (w : World) :
  sessions_ok (sessions st) ->
  get_health (initial_state w) = route_health 0 /\
  (forall id t, sessions st !! id = Some t ->
     get_health (snd (delete_mcp (Some id) st)) = route_health (size (sessions st) - 1)) /\
  (forall r st1, post_mcp fuel handshake st = Some (r, st1) ->
     get_health st1
     = route_health (match sessions st !! fst (randomUUID (world st)) with
                     | Some _ => size (sessions st)
                     | None => S (size (sessions st))
                     end)).
Proof.
  intros Hok. split; [reflexivity|]. split.
  - intros id t Hl.
    rewrite (delete_mcp_active id t st Hok Hl).
    cbn [snd]. unfold get_health. cbn [sessions].
    rewrite map_size_delete_Some by (exists t; exact Hl).
    destruct (size (sessions st)); cbn; f_equal; lia.
  - intros r st1 H.
    rewrite (post_mcp_handshake fuel handshake st eq_refl eq_refl) in H.
    injection H as _ <-.
    unfold get_health. cbn [sessions].
    destruct (sessions st !! fst (randomUUID (world st))) as [t0|] eqn:Hl.
    + rewrite map_size_insert_Some by (exists t0; exact Hl). reflexivity.
    + rewrite map_size_insert_None by exact Hl. reflexivity.
Qed.

(** ** One history, seen through every session *)

Lemma schema_count_integer n :
  1 <= n <= 10 -> schema_count (JsNumber (num_of_Z n)) = Some (num_of_Z n).
Proof.
  intros Hn. assert (H : 0 <= n - 1 < 10) by lia.
  replace n with (n - 1 + 1) by lia. revert H. generalize (n - 1). intros k Hk.
  by_cases_below 10%nat k.
Qed.

Lemma last100_length_min {A} (l : list A) : length (last100 l) = Nat.min 100 (length l).
Proof. unfold last100. rewrite length_drop. lia. Qed.

Lemma generate_uuid_integer_count n ver fuel w :
  1 <= n <= 10 -> (11 <= fuel)%nat ->
  exists uuids recs w',
    generate_uuid_body fuel ver (num_of_Z n) w = Some (uuids, w') /\
    generate_uuid fuel ver (num_of_Z n) w
      = Some (generate_text ver (num_of_Z n) uuids, w') /\
    Z.of_nat (length uuids) = n /\ Z.of_nat (length recs) = n /\
    List.map uuid recs = uuids /\
    uuidHistory w' = last100 (uuidHistory w ++ recs) /\
    Forall (fun r => version r = ver /\ canonical_lowercase (uuid r) = true) recs.
Proof.
  intros Hn Hf.
  pose proof (generate_loop_integer ver n Hn (Z.to_nat n) 0 ([], w) fuel
                ltac:(lia) ltac:(lia) ltac:(lia)) as E.
  destruct (generate_steps_spec ver (Z.to_nat n) [] w)
    as (recs & w1 & Ei & Hh & Hl & Hv & _).
  rewrite Ei in E. cbn [app] in E.
  exists (List.map uuid recs), recs, (set_history (history_trim (uuidHistory w1)) w1).
  assert (Eb : generate_uuid_body fuel ver (num_of_Z n) w
               = Some (List.map uuid recs, set_history (history_trim (uuidHistory w1)) w1))
    by (unfold generate_uuid_body; rewrite E; reflexivity).
  split; [exact Eb|].
  split; [unfold generate_uuid; rewrite Eb; reflexivity|].
  split; [rewrite List.length_map; lia|].
  split; [lia|]. split; [reflexivity|].
  cbn [uuidHistory set_history]. rewrite history_trim_last100, Hh.
  split; [reflexivity|].
  eapply List.Forall_impl; [|exact Hv].
  intros r [Hr Hg]. split; [exact Hr | eapply generated_lowercase, Hg].
Qed.

(** A history read is answered from the one array of the process: the
    view does not depend on the session the read comes through, and a
    read changes nothing. *)
Theorem history_read_is_process_wide (fuel : nat) (a : jsstring) (ta : Transport)
    (st : HttpState) :
  sessions_ok (sessions st) -> sessions st !! a = Some ta ->
  post_mcp fuel (read_history a) st
  = Some (http_ok (Some a) (result_resource (uuid_history (world st))), st).
Proof.
  intros Hok Hl. unfold read_history.
  rewrite (post_mcp_active fuel a ta (resources_read (lit "uuid://history")) st Hok Hl eq_refl).
  cbn [server_handle]. change (registered _ _) with true. cbv iota.
  destruct st; reflexivity.
Qed.

(** What one session generates, every other session reads.  Take any
    [generate_uuid] call the schema accepts with an integral count [n],
    the variant and the count given or left to their defaults, sent
    through session [a]: the text returned to [a] lists [n] identifiers,
    and a history read through any session [b] then reports
    [min 100 (before + n)] records, the last [n] of which are the records
    of exactly those identifiers, in order, with the variant of the call. *)
Theorem generated_records_visible_to_all (fuel : nat) (n : Z) (ver : Version)
    (args : JsObject) (a b : jsstring) (ta tb : Transport) (st : HttpState) :
  sessions_ok (sessions st) ->
  sessions st !! a = Some ta -> sessions st !! b = Some tb ->
  schema_version (get_prop args (lit "version")) = Some ver ->
  schema_count (get_prop args (lit "count")) = Some (num_of_Z n) ->
  1 <= n <= 10 -> (11 <= fuel)%nat ->
  exists uuids text st1 view,
    post_mcp fuel (call_generate a args) st
    = Some (http_ok (Some a) (result_text text), st1) /\
    listed_values text = uuids /\
    Z.of_nat (length uuids) = n /\
    post_mcp fuel (read_history b) st1 = Some (http_ok (Some b) (result_resource view), st1) /\
    totalCount view = Nat.min 100 (totalCount (uuid_history (world st)) + Z.to_nat n) /\
    exists older recs,
      history view = older ++ recs /\ List.map uuid recs = uuids /\
      Forall (fun r => version r = ver) recs.
Proof.
  intros Hok Ha Hb Hver Hcount Hn Hf.
  destruct (generate_uuid_integer_count n ver fuel (world st) Hn Hf)
    as (uuids & recs & w' & Eb & Eg & Lu & Lr & Em & Hh & Hrecs).
  exists uuids, (generate_text ver (num_of_Z n) uuids),
    {| sessions := sessions st; world := w' |}, (uuid_history w').
  split.
  { unfold call_generate.
    rewrite (post_mcp_active fuel a ta (tools_call (lit "generate_uuid") args)
               st Hok Ha eq_refl).
    cbn [server_handle]. change (registered _ _) with true.
    change (str_eqb (lit "generate_uuid") (lit "generate_uuid")) with true.
    cbn [negb]. rewrite Hver, Hcount, Eg. reflexivity. }
  split.
  { apply (generate_text_lists ver n uuids Hn Lu). rewrite <- Em.
    apply List.Forall_map. eapply List.Forall_impl; [|exact Hrecs].
    intros r [_ Hc]. exact Hc. }
  split; [exact Lu|].
  split.
  { unfold read_history.
    rewrite (post_mcp_active fuel b tb (resources_read (lit "uuid://history"))
               {| sessions := sessions st; world := w' |} Hok Hb eq_refl).
    cbn [server_handle]. change (registered _ _) with true. cbv iota.
    reflexivity. }
  unfold uuid_history. cbn [totalCount history].
  split.
  - rewrite Hh, last100_length_min, length_app. lia.
  - unfold array_slice_from.
    assert (Hlen : length (uuidHistory w') = Nat.min 100 (length (uuidHistory (world st)) + length recs))
      by (rewrite Hh, last100_length_min, length_app; reflexivity).
    assert (Hsuf : uuidHistory w'
                   = drop (length (uuidHistory (world st)) + length recs - 100)%nat
                       (uuidHistory (world st)) ++ recs)
      by (rewrite Hh; apply last100_app_suffix; lia).
    change (-20 <? 0) with true. cbv iota.
    set (k := Z.to_nat (Z.max (Z.of_nat (length (uuidHistory w')) + -20) 0)).
    assert (Hk : (k <= length (uuidHistory w') - length recs)%nat) by (unfold k; lia).
    rewrite Hsuf.
    set (old := drop (length (uuidHistory (world st)) + length recs - 100)%nat
                  (uuidHistory (world st))) in *.
    assert (Hold : length old = (length (uuidHistory w') - length recs)%nat).
    { rewrite Hsuf, length_app. lia. }
    rewrite drop_app_le by lia.
    exists (drop k old), recs.
    split; [reflexivity|]. split; [exact Em|].
    eapply List.Forall_impl; [|exact Hrecs]. intros r [Hr _]. exact Hr.
Qed.

Lemma two_sessions_ok : sessions_ok (sessions two_sessions).
Proof.
  intros id t Hl. cbn [two_sessions sessions] in Hl.
  apply lookup_insert_Some in Hl as [[<- <-]|[_ Hl]]; [repeat split; reflexivity|].
  apply lookup_insert_Some in Hl as [[<- <-]|[_ Hl]]; [repeat split; reflexivity|].
  rewrite lookup_empty in Hl. discriminate Hl.
Qed.

Lemma two_sessions_a : sessions two_sessions !! token_a = Some (active_transport token_a).
Proof. apply lookup_insert_eq. Qed.

Lemma two_sessions_b : sessions two_sessions !! token_b = Some (active_transport token_b).
Proof.
  cbn [two_sessions sessions]. rewrite lookup_insert_ne by discriminate.
  apply lookup_insert_eq.
Qed.

Lemma health_counts_witness :
  get_health (initial_state sample_world) = route_health 0 /\
  get_health (snd (delete_mcp (Some token_a) two_sessions)) = route_health 1.
Proof.
  destruct (health_counts_sessions 11 two_sessions sample_world two_sessions_ok)
    as (H0 & Hd & _).
  split; [exact H0|].
  rewrite (Hd token_a (active_transport token_a) two_sessions_a).
  cbn [two_sessions sessions].
  rewrite map_size_insert_None
    by (rewrite lookup_insert_ne by discriminate; apply lookup_empty).
  rewrite map_size_insert_None by apply lookup_empty.
  rewrite map_size_empty. reflexivity.
Defined.

Lemma history_read_witness :
  post_mcp 11 (read_history token_b) two_sessions
  = Some (http_ok (Some token_b) (result_resource (uuid_history (world two_sessions))),
          two_sessions).
Proof.
  apply (history_read_is_process_wide 11 token_b (active_transport token_b) two_sessions
           two_sessions_ok two_sessions_b).
Defined.

Lemma generated_records_witness :
  exists uuids text st1 view,
    post_mcp 11 (call_generate token_a [(lit "version", JsString (lit "v7"));
                                        (lit "count", JsNumber (num_of_Z 3))])
      two_sessions
    = Some (http_ok (Some token_a) (result_text text), st1) /\
    listed_values text = uuids /\
    Z.of_nat (length uuids) = 3 /\
    post_mcp 11 (read_history token_b) st1
    = Some (http_ok (Some token_b) (result_resource view), st1) /\
    totalCount view = 3%nat.
Proof.
  destruct (generated_records_visible_to_all 11 3 v7
              [(lit "version", JsString (lit "v7")); (lit "count", JsNumber (num_of_Z 3))]
              token_a token_b
              (active_transport token_a) (active_transport token_b) two_sessions
              two_sessions_ok two_sessions_a two_sessions_b eq_refl eq_refl
              ltac:(lia) ltac:(lia))
    as (uuids & text & st1 & view & E1 & T & L & E2 & C & _).
  exists uuids, text, st1, view.
  split; [exact E1|]. split; [exact T|]. split; [exact L|]. split; [exact E2|]. exact C.
Defined.

(** ** More on [validate_uuid] *)

Lemma regex_test_grammar s : regex_test uuidPattern s = canonical_grammar s.
Proof.
  rewrite regex_test_positions, all_match_imap. unfold canonical_grammar.
  change (length (pattern_positions uuidPattern)) with 36%nat.
  destruct (length s =? 36)%nat eqn:L; [|reflexivity].
  cbn [andb]. f_equal. apply imap_ext. intros i c Hic.
  apply pattern_is_grammar.
  apply lookup_lt_Some in Hic. apply Nat.eqb_eq in L. lia.
Qed.

Lemma canonical_grammar_position s i c :
  canonical_grammar s = true -> s !! i = Some c -> grammar_position i c = true.
Proof.
  unfold canonical_grammar. intros H Hl. apply andb_prop in H as [_ H].
  rewrite forallb_forall in H. apply H.
  apply list_elem_of_In. apply list_elem_of_lookup. exists i.
  rewrite list_lookup_imap, Hl. reflexivity.
Qed.

Lemma canonical_grammar_length s : canonical_grammar s = true -> length s = 36%nat.
Proof.
  unfold canonical_grammar. intros H. apply andb_prop in H as [H _].
  apply Nat.eqb_eq. exact H.
Qed.

Lemma version_position_digit c :
  grammar_position 14 c = true -> exists d, 1 <= d <= 7 /\ c = Z.to_N (48 + d).
Proof.
  intros H. destruct (N.lt_ge_cases c 128) as [Hc|Hc].
  - assert (T : forallb (fun k => implb (grammar_position 14 (N.of_nat k))
                                    ((49 <=? N.of_nat k) && (N.of_nat k <=? 55))%N)
                  (seq 0 128) = true) by (vm_compute; reflexivity).
    rewrite forallb_forall in T. specialize (T (N.to_nat c) ltac:(apply List.in_seq; lia)).
    rewrite N2Nat.id, H in T. cbn [implb] in T.
    apply andb_prop in T as [T1 T2]. apply N.leb_le in T1, T2.
    exists (Z.of_N c - 48). split; [lia|].
    replace (48 + (Z.of_N c - 48)) with (Z.of_N c) by lia. rewrite N2Z.id. reflexivity.
  - rewrite grammar_position_high in H by exact Hc. discriminate H.
Qed.

(** The character at index 14 of a string of the grammar. *)
Lemma validate_version_digit (u : jsstring) :
  canonical_grammar u = true ->
  exists d, 1 <= d <= 7 /\ u !! 14%nat = Some (Z.to_N (48 + d)).
Proof.
  intros H. pose proof (canonical_grammar_length u H) as L.
  destruct (u !! 14%nat) as [c|] eqn:Hc.
  - destruct (version_position_digit c (canonical_grammar_position u 14 c H Hc))
      as (d & Hd & ->).
    exists d. split; [exact Hd | reflexivity].
  - apply lookup_ge_None in Hc. lia.
Qed.

Lemma version_digit_string d : 1 <= d <= 7 -> [Z.to_N (48 + d)] = toString10 d.
Proof.
  intros Hd. assert (Hk : 0 <= d - 1 < 7) by lia.
  replace d with (d - 1 + 1) by lia. revert Hk. generalize (d - 1). intros k Hk.
  by_cases_below 7%nat k.
Qed.

(** A valid identifier always gets a detected version, one of [v1] to
    [v7]: the character at index 14.  The [null] the handler prepares for
    is never reported for a valid input. *)
Theorem valid_identifier_has_version (u : jsstring) :
  fst (validate_uuid_check u) = true ->
  exists d, 1 <= d <= 7 /\
    u !! 14%nat = Some (Z.to_N (48 + d)) /\
    snd (validate_uuid_check u) = Some (lit "v" ++ toString10 d) /\
    length u = 36%nat.
Proof.
  unfold validate_uuid_check. cbn [fst snd]. rewrite regex_test_grammar. intros H.
  rewrite H. destruct (validate_version_digit u H) as (d & Hd & Hc).
  exists d. split; [exact Hd|]. split; [exact Hc|].
  split; [|exact (canonical_grammar_length u H)].
  rewrite Hc, (version_digit_string d Hd). reflexivity.
Qed.

Lemma valid_identifier_witness :
  snd (validate_uuid_check (lit "0192F3A0-1234-7abc-8DEF-0123456789ab"))
  = Some (lit "v7").
Proof.
  destruct (valid_identifier_has_version (lit "0192F3A0-1234-7abc-8DEF-0123456789ab")
              eq_refl) as (d & Hd & Hc & Hv & _).
  rewrite Hv. cbn in Hc. injection Hc as Hc.
  assert (d = 7) as -> by lia. reflexivity.
Defined.

Lemma ascii_case_high c :
  (128 <= c)%N -> ascii_upper c = c /\ ascii_lower c = c.
Proof.
  intros Hc. unfold ascii_upper, ascii_lower.
  destruct (N.leb_spec c 122); [lia|]. destruct (N.leb_spec c 90); [lia|].
  rewrite !andb_false_r. split; reflexivity.
Qed.

Lemma hex_value_case c :
  hex_value (ascii_upper c) = hex_value c /\ hex_value (ascii_lower c) = hex_value c /\
  (ascii_upper c =? 45)%N = (c =? 45)%N /\ (ascii_lower c =? 45)%N = (c =? 45)%N.
Proof.
  destruct (N.lt_ge_cases c 128) as [Hc|Hc];
    [|destruct (ascii_case_high c Hc) as [-> ->]; repeat split; reflexivity].
  pose (same := fun a b : option N =>
                  match a, b with
                  | Some x, Some y => (x =? y)%N
                  | None, None => true
                  | _, _ => false
                  end).
  assert (Hsame : forall a b, same a b = true -> a = b).
  { intros [x|] [y|] H; try discriminate H; [|reflexivity].
    apply N.eqb_eq in H. subst. reflexivity. }
  assert (T : forallb (fun k =>
                same (hex_value (ascii_upper (N.of_nat k))) (hex_value (N.of_nat k))
                && same (hex_value (ascii_lower (N.of_nat k))) (hex_value (N.of_nat k))
                && Bool.eqb (ascii_upper (N.of_nat k) =? 45)%N (N.of_nat k =? 45)%N
                && Bool.eqb (ascii_lower (N.of_nat k) =? 45)%N (N.of_nat k =? 45)%N)
              (seq 0 128) = true) by (vm_compute; reflexivity).
  rewrite forallb_forall in T. specialize (T (N.to_nat c) ltac:(apply List.in_seq; lia)).
  rewrite N2Nat.id in T.
  apply andb_prop in T as [T T4]. apply andb_prop in T as [T T3].
  apply andb_prop in T as [T1 T2].
  apply Hsame in T1, T2. apply Bool.eqb_prop in T3, T4. auto.
Qed.

Lemma grammar_position_case i c :
  grammar_position i (ascii_upper c) = grammar_position i c /\
  grammar_position i (ascii_lower c) = grammar_position i c.
Proof.
  destruct (hex_value_case c) as (H1 & H2 & H3 & H4).
  unfold grammar_position. rewrite H1, H2, H3, H4. split; reflexivity.
Qed.

Lemma canonical_grammar_case s :
  canonical_grammar (List.map ascii_upper s) = canonical_grammar s /\
  canonical_grammar (List.map ascii_lower s) = canonical_grammar s.
Proof.
  unfold canonical_grammar. rewrite !List.length_map.
  change (List.map ascii_upper s) with (ascii_upper <$> s).
  change (List.map ascii_lower s) with (ascii_lower <$> s).
  rewrite !imap_fmap.
  split; f_equal; f_equal; apply imap_ext; intros i c _; cbn; apply grammar_position_case.
Qed.

(** The verdict and the detected version do not depend on the case of the
    ASCII letters of the input: upper-casing or lower-casing the whole
    input changes neither. *)
Theorem validate_ignores_case (u : jsstring) :
  validate_uuid_check (List.map ascii_upper u) = validate_uuid_check u /\
  validate_uuid_check (List.map ascii_lower u) = validate_uuid_check u.
Proof.
  destruct (canonical_grammar_case u) as [Hu Hl].
  assert (Hdigit : forall f : N -> N,
            (forall c d, 1 <= d <= 7 -> c = Z.to_N (48 + d) -> f c = c) ->
            canonical_grammar (List.map f u) = canonical_grammar u ->
            validate_uuid_check (List.map f u) = validate_uuid_check u).
  { intros f Hf Hg. unfold validate_uuid_check. rewrite !regex_test_grammar, Hg.
    destruct (canonical_grammar u) eqn:Hv; [|reflexivity].
    f_equal. change (List.map f u) with (f <$> u). rewrite list_lookup_fmap.
    destruct (u !! 14%nat) as [c|] eqn:Hc; [|reflexivity].
    destruct (version_position_digit c (canonical_grammar_position u 14 c Hv Hc))
      as (d & Hd & E).
    cbn. rewrite (Hf c d Hd E). reflexivity. }
  split; apply Hdigit; try assumption.
  - intros c d Hd ->. unfold ascii_upper.
    destruct (N.leb_spec 97 (Z.to_N (48 + d))); [lia|]. reflexivity.
  - intros c d Hd ->. unfold ascii_lower.
    destruct (N.leb_spec 65 (Z.to_N (48 + d))); [lia|]. reflexivity.
Qed.

(** The pattern is anchored at both ends: a valid identifier with
    anything put before or after it, a line feed included, is invalid. *)
Theorem validate_rejects_extensions (u x : jsstring) :
  fst (validate_uuid_check u) = true -> x <> [] ->
  validate_uuid_check (u ++ x) = (false, None) /\
  validate_uuid_check (x ++ u) = (false, None).
Proof.
  unfold validate_uuid_check. cbn [fst]. rewrite !regex_test_grammar. intros H Hx.
  apply canonical_grammar_length in H.
  assert (Hlen : (0 < length x)%nat) by (destruct x; [congruence | cbn; lia]).
  assert (E : forall s, length s <> 36%nat -> canonical_grammar s = false).
  { intros s Hs. unfold canonical_grammar.
    destruct (Nat.eqb_spec (length s) 36); [contradiction | reflexivity]. }
  rewrite !E by (rewrite length_app; lia). split; reflexivity.
Qed.

Lemma validate_rejects_extensions_witness :
  validate_uuid_check (lit "0192f3a0-1234-7abc-8def-0123456789ab" ++ [10%N])
  = (false, None).
Proof.
  apply (validate_rejects_extensions (lit "0192f3a0-1234-7abc-8def-0123456789ab") [10%N]
           eq_refl); discriminate.
Defined.

(** The text the handler returns tells the verdict: it opens with the
    check mark and names the version exactly when the input matches the
    grammar, and otherwise opens with the cross mark and echoes the input
    unchanged. *)
Theorem validate_text_tells_verdict (u : jsstring) :
  (canonical_grammar u = true ->
     exists d, 1 <= d <= 7 /\
       validate_uuid u
       = [9989; 32; 26377; 21177; 12394; 85; 85; 73; 68; 12391; 12377; 65288;
          12496; 12540; 12472; 12519; 12531; 58; 32]%N
         ++ lit "v" ++ toString10 d ++ [65289%N]) /\
  (canonical_grammar u = false ->
     validate_uuid u
     = [10060; 32; 28961; 21177; 12394; 85; 85; 73; 68; 24418; 24335; 12391;
        12377; 58; 32]%N ++ u).
Proof.
  split; intros H.
  - destruct (validate_version_digit u H) as (d & Hd & Hc).
    exists d. split; [exact Hd|].
    unfold validate_uuid, validate_uuid_check.
    rewrite regex_test_grammar, H, Hc, <- (version_digit_string d Hd). reflexivity.
  - unfold validate_uuid, validate_uuid_check. rewrite regex_test_grammar, H. reflexivity.
Qed.

Lemma validate_text_witness :
  validate_uuid (lit "not-a-uuid")
  = [10060; 32; 28961; 21177; 12394; 85; 85; 73; 68; 24418; 24335; 12391;
     12377; 58; 32]%N ++ lit "not-a-uuid".
Proof.
  apply (validate_text_tells_verdict (lit "not-a-uuid")). reflexivity.
Defined.

(** ** More on [generateUuidV7] *)

Lemma stamp_octet_wide t k :
  0 <= t < 2 ^ 53 -> (k < 6)%nat ->
  stamp_octet (num_of_Z t) k = t / 2 ^ (8 * (5 - Z.of_nat k)) mod 256.
Proof.
  intros Ht Hk.
  destruct k as [|[|[|[|[|[|k]]]]]]; try lia; unfold stamp_octet;
    rewrite bit_and_255, Z.mod_mod by lia.
  1-5: rewrite truncate_div_pow2 by (simpl; tauto || lia); reflexivity.
  rewrite truncate_num_of_Z by lia.
  change (2 ^ (8 * (5 - Z.of_nat 5))) with 1. rewrite Z.div_1_r. reflexivity.
Qed.

Lemma low_digit_mod48 t j :
  0 <= j <= 40 -> (t mod 2 ^ 48) / 2 ^ j mod 256 = t / 2 ^ j mod 256.
Proof.
  intros Hj.
  rewrite (Z.div_mod t (2 ^ 48)) at 2 by lia.
  replace (2 ^ 48) with (2 ^ (48 - j) * 2 ^ j) at 2
    by (rewrite <- Z.pow_add_r by lia; f_equal; lia).
  replace (2 ^ (48 - j) * 2 ^ j * (t / 2 ^ 48) + t mod 2 ^ 48)
    with (t mod 2 ^ 48 + (2 ^ (48 - j) * (t / 2 ^ 48)) * 2 ^ j) by lia.
  rewrite Z.div_add by (apply Z.pow_nonzero; lia).
  replace (2 ^ (48 - j)) with (2 ^ (40 - j) * 256)
    by (change 256 with (2 ^ 8); rewrite <- Z.pow_add_r by lia; f_equal; lia).
  replace ((t mod 2 ^ 48) / 2 ^ j + 2 ^ (40 - j) * 256 * (t / 2 ^ 48))
    with ((t mod 2 ^ 48) / 2 ^ j + (2 ^ (40 - j) * (t / 2 ^ 48)) * 256) by lia.
  rewrite Z.mod_add by lia. reflexivity.
Qed.

(** The 48-bit field wraps: for any time value a double holds exactly
    (below 2^53), octets 0-5 are the big-endian digits of [t mod 2^48];
    the 32-bit conversion inside [timestamp & 0xff] loses nothing. *)
Theorem timestamp_field_wraps (t : Z) (rnd : list Z) :
  0 <= t < 2 ^ 53 ->
  be_value (take 6 (uuidV7_bytes (num_of_Z t) rnd)) = t mod 2 ^ 48.
Proof.
  intros Ht.
  destruct (uuidV7_bytes_shape (num_of_Z t) rnd)
    as (y6 & r7 & y8 & r9 & r10 & r11 & r12 & r13 & r14 & r15 & -> & _).
  rewrite !stamp_octet_wide by lia.
  change (8 * (5 - Z.of_nat 0)) with 40. change (8 * (5 - Z.of_nat 1)) with 32.
  change (8 * (5 - Z.of_nat 2)) with 24. change (8 * (5 - Z.of_nat 3)) with 16.
  change (8 * (5 - Z.of_nat 4)) with 8. change (8 * (5 - Z.of_nat 5)) with 0.
  pose proof (Z.mod_pos_bound t (2 ^ 48) ltac:(lia)) as Hr.
  pose proof (digits_sum (t mod 2 ^ 48) ltac:(lia)) as S.
  pose proof (low_digit_mod48 t 0 ltac:(lia)) as E0.
  change (2 ^ 0) with 1 in E0. rewrite !Z.div_1_r in E0.
  rewrite !low_digit_mod48, E0 in S by lia.
  change (2 ^ 0) with 1. rewrite Z.div_1_r.
  exact S.
Qed.

Lemma timestamp_field_wraps_witness :
  be_value (take 6 (uuidV7_bytes (num_of_Z (2 ^ 48 + 5)) [])) = 5.
Proof.
  apply (timestamp_field_wraps (2 ^ 48 + 5) []). split; [discriminate | reflexivity].
Defined.

Lemma keep_low_nibble r :
  is_octet r -> bit_or (bit_and r 15) 112 mod 256 = 112 + r mod 16.
Proof. unfold is_octet. intros Hr. by_cases_below 256%nat r. Qed.

Lemma keep_low_six r :
  is_octet r -> bit_or (bit_and r 63) 128 mod 256 = 128 + r mod 64.
Proof. unfold is_octet. intros Hr. by_cases_below 256%nat r. Qed.

(** Forcing the markers keeps the rest of the random fill: of the ten
    random octets only the high nibble of the first and the two high bits
    of the third are overwritten, so 74 random bits reach the identifier
    unchanged. *)
Theorem random_fill_preserved (timestamp : Number) (rnd : list Z) :
  length rnd = 10%nat -> Forall is_octet rnd ->
  drop 6 (uuidV7_bytes timestamp rnd)
  = [112 + u8_get rnd 0 mod 16; u8_get rnd 1; 128 + u8_get rnd 2 mod 64] ++ drop 3 rnd.
Proof.
  intros Hlen Hoct.
  do 11 (destruct rnd as [|? rnd]; try discriminate Hlen).
  explode_octets Hoct.
  unfold uuidV7_bytes. cbv zeta.
  unfold Uint8Array, u8_set, u8_store, u8_get.
  cbn [replicate insert list_insert lookup list_lookup default drop app].
  cbn [default id].
  rewrite keep_low_nibble, keep_low_six by apply is_octet_mod.
  unfold is_octet in *.
  rewrite !(Z.mod_small _ 256) by lia. reflexivity.
Qed.

Lemma random_fill_witness :
  drop 6 (uuidV7_bytes (num_of_Z 1700000000000) [171; 1; 255; 3; 4; 5; 6; 7; 8; 9])
  = [123; 1; 191; 3; 4; 5; 6; 7; 8; 9].
Proof.
  apply (random_fill_preserved (num_of_Z 1700000000000) [171; 1; 255; 3; 4; 5; 6; 7; 8; 9]).
  - reflexivity.
  - repeat (apply List.Forall_cons; [unfold is_octet; lia|]). apply List.Forall_nil.
Defined.

Lemma hex_digit_injective x y :
  0 <= x < 16 -> 0 <= y < 16 -> hex_digit x = hex_digit y -> x = y.
Proof.
  intros Hx Hy E. apply Z.compare_eq_iff.
  rewrite <- hex_digit_compare by assumption. rewrite E. apply N.compare_refl.
Qed.

Lemma octet_of_digits a b :
  is_octet a -> is_octet b -> hi a = hi b -> lo a = lo b -> a = b.
Proof.
  intros Ha Hb Hh Hl.
  destruct (nibbles_range a Ha) as [Ha1 Ha2].
  destruct (nibbles_range b Hb) as [Hb1 Hb2].
  apply hex_digit_injective in Hh; [|assumption..].
  apply hex_digit_injective in Hl; [|assumption..].
  rewrite (Z.div_mod a 16), (Z.div_mod b 16) by lia. congruence.
Qed.

(** The canonical string determines the 16 octets: two arrays of octets
    with the same rendering are equal, so nothing of the 128 bits is lost
    in the string. *)
Theorem uuid_format_injective (a b : list Z) :
  length a = 16%nat -> length b = 16%nat ->
  Forall is_octet a -> Forall is_octet b ->
  uuid_format a = uuid_format b -> a = b.
Proof.
  intros La Lb Ha Hb E.
  do 17 (destruct a as [|? a]; try discriminate La).
  do 17 (destruct b as [|? b]; try discriminate Lb).
  rewrite !uuid_format_octets in E by assumption.
  explode_octets Ha. explode_octets Hb.
  injection E as E0 E1 E2 E3 E4 E5 E6 E7 E8 E9 E10 E11 E12 E13 E14 E15
                 E16 E17 E18 E19 E20 E21 E22 E23 E24 E25 E26 E27 E28 E29 E30 E31.
  repeat f_equal; apply octet_of_digits; assumption.
Qed.

Lemma uuid_format_injective_witness :
  [1; 2; 3; 4; 5; 6; 7; 8; 9; 10; 11; 12; 13; 14; 15; 16]
  = [1; 2; 3; 4; 5; 6; 7; 8; 9; 10; 11; 12; 13; 14; 15; 16].
Proof.
  apply (uuid_format_injective
           [1; 2; 3; 4; 5; 6; 7; 8; 9; 10; 11; 12; 13; 14; 15; 16]
           [1; 2; 3; 4; 5; 6; 7; 8; 9; 10; 11; 12; 13; 14; 15; 16]
           eq_refl eq_refl);
    [repeat (apply List.Forall_cons; [unfold is_octet; lia|]); apply List.Forall_nil
    |repeat (apply List.Forall_cons; [unfold is_octet; lia|]); apply List.Forall_nil
    |reflexivity].
Defined.

(** ** More on the [generate_uuid] handler *)

Lemma SFcompare_antisym x y :
  SFcompare y x = option_map CompOpp (SFcompare x y).
Proof.
  destruct x as [sx|sx| |sx mx ex], y as [sy|sy| |sy my ey]; cbn;
    try reflexivity; try (destruct sx, sy; reflexivity);
    try (destruct sx; reflexivity); try (destruct sy; reflexivity).
  assert (A : Pos.compare_cont Eq my mx = CompOpp (Pos.compare_cont Eq mx my))
    by (rewrite Pos.compare_cont_antisym; reflexivity).
  destruct sx, sy; cbn; try reflexivity;
    rewrite (Z.compare_antisym ex ey);
    destruct (Z.compare_spec ex ey); cbn; try reflexivity;
    rewrite A; destruct (Pos.compare_cont Eq mx my); reflexivity.
Qed.

(** A count the schema lets through is at least 1, so the first test of
    the loop succeeds. *)
Lemma accepted_count_positive v c :
  schema_count v = Some c -> js_lt (num_of_Z 0) c = true.
Proof.
  intros H. destruct (schema_count_range v c H) as (Hn & Hl & Hg).
  destruct c as [s|s| |s m e].
  - exfalso. destruct s; cbn in Hl; discriminate Hl.
  - exfalso. destruct s; [cbn in Hl; discriminate Hl | cbn in Hg; discriminate Hg].
  - cbn in Hn. discriminate Hn.
  - destruct s; [|reflexivity]. exfalso. cbn in Hl. discriminate Hl.
Qed.

Lemma SFcompare_defined x y :
  js_isNaN x = false -> js_isNaN y = false -> exists c, SFcompare x y = Some c.
Proof.
  destruct x as [sx|sx| |sx mx ex], y as [sy|sy| |sy my ey]; cbn;
    intros Hx Hy; try discriminate; eexists; reflexivity.
Qed.

Lemma count_is_one c :
  js_isNaN c = false -> js_lt c (num_of_Z 1) = false ->
  (js_lt (num_of_Z 1) c = false <-> js_strict_eq c (num_of_Z 1) = true).
Proof.
  intros Hn Hl. unfold js_lt, js_strict_eq, SFltb, SFeqb in *.
  rewrite (SFcompare_antisym c (num_of_Z 1)).
  destruct (SFcompare_defined c (num_of_Z 1) Hn eq_refl) as (r & E).
  rewrite E in *. cbn [option_map].
  destruct r; cbn [CompOpp]; split; intros H; try reflexivity; discriminate.
Qed.

(** Every count the schema accepts, fractional ones included, makes the
    loop end within 11 tests; the call yields between 1 and 10
    identifiers, all of them valid for the requested variant, and exactly
    one identifier precisely when [count === 1], the test that selects the
    un-numbered form of the text. *)
Theorem accepted_count_generates (v : JsValue) (c : Number) (ver : Version)
    (fuel : nat) (w : World) :
  schema_count v = Some c -> (11 <= fuel)%nat ->
  exists uuids w',
    generate_uuid_body fuel ver c w = Some (uuids, w') /\
    (1 <= length uuids <= 10)%nat /\
    (length uuids = 1%nat <-> js_strict_eq c (num_of_Z 1) = true) /\
    Forall (fun u => validate_uuid_check u = (true, Some (version_string ver))) uuids.
Proof.
  intros Hs Hf.
  destruct (schema_count_range v c Hs) as (Hn & Hl & Hg).
  pose proof (accepted_count_positive v c Hs) as H0.
  assert (Hloop : exists m, (m <= 9)%nat /\
            generate_loop fuel ver c (num_of_Z 0) ([], w)
            = Some (Nat.iter (S m) (generate_step ver) ([], w)) /\
            (m = 0%nat <-> js_lt (num_of_Z 1) c = false)).
  { destruct fuel as [|[|fuel]]; try lia.
    rewrite generate_loop_step by exact H0.
    change (js_add (num_of_Z 0) (num_of_Z 1)) with (num_of_Z 1).
    destruct (js_lt (num_of_Z 1) c) eqn:H1.
    - rewrite generate_loop_step by exact H1.
      change (js_add (num_of_Z 1) (num_of_Z 1)) with (num_of_Z (10 - Z.of_nat 8)).
      destruct (generate_loop_bounded ver c Hg 8 (generate_step ver (generate_step ver ([], w)))
                  fuel ltac:(lia) ltac:(lia)) as (m & Hm & ->).
      exists (S m). split; [lia|]. split.
      + rewrite !Nat.iter_succ_r. reflexivity.
      + split; intros; discriminate.
    - rewrite generate_loop_stop by exact H1.
      exists 0%nat. split; [lia|]. split; [reflexivity|]. split; reflexivity. }
  destruct Hloop as (m & Hm & E & Hone).
  destruct (generate_steps_spec ver (S m) [] w) as (recs & w1 & Ei & _ & Hlen & Hv & _).
  rewrite Ei in E. cbn [app] in E.
  exists (List.map uuid recs), (set_history (history_trim (uuidHistory w1)) w1).
  split; [unfold generate_uuid_body; rewrite E; reflexivity|].
  rewrite List.length_map, Hlen.
  split; [lia|]. split.
  - rewrite <- (count_is_one c Hn Hl), <- Hone. lia.
  - apply List.Forall_map. eapply List.Forall_impl; [|exact Hv].
    intros r [_ Hr]. apply generated_validates, Hr.
Qed.

Lemma accepted_count_witness :
  exists uuids w',
    generate_uuid_body 11 v7 (js_div (num_of_Z 3) (num_of_Z 2)) sample_world
      = Some (uuids, w') /\
    (1 <= length uuids <= 10)%nat.
Proof.
  destruct (accepted_count_generates (JsNumber (js_div (num_of_Z 3) (num_of_Z 2)))
              (js_div (num_of_Z 3) (num_of_Z 2)) v7 11 sample_world
              eq_refl ltac:(lia)) as (uuids & w' & E & L & _).
  exists uuids, w'. split; [exact E | exact L].
Defined.

(** ** More on the history resource *)

(** The resource reports the whole length and returns the newest records:
    the last 20 in insertion order, or all of them when the history is
    shorter ([slice(-20)] counts from the end and clamps at the front). *)
Theorem history_view_window (w : World) :
  let view := uuid_history w in
  totalCount view = length (uuidHistory w) /\
  length (history view) = Nat.min 20 (length (uuidHistory w)) /\
  history view = drop (length (uuidHistory w) - 20)%nat (uuidHistory w) /\
  ((length (uuidHistory w) <= 20)%nat -> history view = uuidHistory w).
Proof.
  cbn zeta. unfold uuid_history, array_slice_from. cbn [totalCount history].
  change (-20 <? 0) with true. cbv iota.
  replace (Z.to_nat (Z.max (Z.of_nat (length (uuidHistory w)) + -20) 0))
    with (length (uuidHistory w) - 20)%nat by lia.
  split; [reflexivity|]. split; [rewrite length_drop; lia|].
  split; [reflexivity|].
  intros H. replace (length (uuidHistory w) - 20)%nat with 0%nat by lia. reflexivity.
Qed.

(** ** The command line *)

Lemma str_compare_refl s : str_compare s s = Eq.
Proof.
  induction s as [|c s IH]; [reflexivity|].
  cbn [str_compare]. rewrite N.compare_refl. exact IH.
Qed.

Lemma array_find_none {A} (p : A -> bool) l :
  Forall (fun x => p x = false) l -> array_find p l = None.
Proof.
  induction 1 as [|x l Hx _ IH]; [reflexivity|].
  cbn [array_find]. rewrite Hx. exact IH.
Qed.

Lemma array_find_first {A} (p : A -> bool) pre x post :
  Forall (fun y => p y = false) pre -> p x = true ->
  array_find p (pre ++ x :: post) = Some x.
Proof.
  induction 1 as [|y l Hy _ IH]; intros Hx; cbn [app array_find].
  - rewrite Hx. reflexivity.
  - rewrite Hy. apply IH, Hx.
Qed.

Lemma port_option_value x :
  Forall (fun c => c <> 61%N) x ->
  startsWith (lit "--port=" ++ x) (lit "--port=") = true /\
  str_split 61 (lit "--port=" ++ x) !! 1%nat = Some x.
Proof.
  intros Hx. split.
  - unfold startsWith, str_eqb. change (lit "--port=") with [45; 45; 112; 111; 114; 116; 61]%N.
    cbn [length app take]. rewrite take_0. reflexivity.
  - change (lit "--port=") with ([45; 45; 112; 111; 114; 116]%N ++ [61%N]).
    rewrite <- app_assoc. cbn [app].
    cbn [str_split N.eqb Pos.eqb].
    rewrite (str_split_whole 61 x Hx). reflexivity.
Qed.

(** The decimal rendering read back digit by digit. *)
Lemma parse_toString10_aux fuel : forall n l o,
  (1 <= fuel)%nat -> 0 <= n < 2 ^ Z.of_nat fuel ->
  exists k, 0 <= k /\
    parse_digits (toString10_aux fuel n l) o
    = parse_digits l (Some (10 ^ k * default 0 o + n)).
Proof.
  induction fuel as [|fuel IH]; intros n l o Hf Hn; [lia|].
  cbn [toString10_aux].
  assert (Hd : decimal_value (Z.to_N (48 + n mod 10)) = Some (n mod 10)).
  { pose proof (Z.mod_pos_bound n 10 ltac:(lia)) as Hm. unfold decimal_value.
    destruct (N.leb_spec 48 (Z.to_N (48 + n mod 10))); [|lia].
    destruct (N.leb_spec (Z.to_N (48 + n mod 10)) 57); [|lia].
    cbn [andb]. f_equal. lia. }
  destruct (Z.eqb_spec (n / 10) 0) as [E|E].
  - exists 1. split; [lia|]. cbn [parse_digits]. rewrite Hd.
    pose proof (Z.div_mod n 10 ltac:(lia)). change (10 ^ 1) with 10.
    do 2 f_equal. unfold id. lia.
  - assert (Hq : 0 <= n / 10 < 2 ^ Z.of_nat fuel).
    { split; [apply Z.div_pos; lia|].
      apply Z.div_lt_upper_bound; [lia|].
      rewrite Nat2Z.inj_succ, Z.pow_succ_r in Hn by lia. lia. }
    assert (Hfuel : (1 <= fuel)%nat).
    { destruct fuel; [|lia]. change (2 ^ Z.of_nat 0) with 1 in Hq. lia. }
    destruct (IH (n / 10) (Z.to_N (48 + n mod 10) :: l) o Hfuel Hq) as (k & Hk & ->).
    exists (k + 1). split; [lia|]. cbn [parse_digits]. rewrite Hd. cbn [default].
    pose proof (Z.div_mod n 10 ltac:(lia)).
    rewrite Z.pow_add_r by lia. change (10 ^ 1) with 10. do 2 f_equal.
    generalize (10 ^ k) (default 0 o). intros X Y. unfold id. lia.
Qed.

Lemma parseInt10_toString10 n :
  0 <= n -> parseInt10 (toString10 n) = num_of_Z n /\
            Forall (fun c => c <> 61%N) (toString10 n).
Proof.
  intros Hn. unfold toString10.
  set (fuel := S (Z.to_nat (Z.log2 n))).
  assert (Hfuel : 0 <= n < 2 ^ Z.of_nat fuel).
  { split; [exact Hn|]. unfold fuel. rewrite Nat2Z.inj_succ, Z2Nat.id by apply Z.log2_nonneg.
    destruct (Z.eq_dec n 0) as [->|Hne]; [reflexivity|].
    apply Z.log2_spec. lia. }
  destruct (toString10_aux_digits fuel n [] ltac:(unfold fuel; lia) Hn)
    as (d & rest & E & Hd & Hall).
  specialize (Hall (List.Forall_nil _)).
  destruct (parse_toString10_aux fuel n [] None ltac:(unfold fuel; lia) Hfuel)
    as (k & Hk & P).
  cbn [parse_digits default] in P. rewrite Z.mul_0_r, Z.add_0_l in P.
  split.
  - unfold parseInt10. rewrite E in *.
    assert (Hws : is_whitespace (Z.to_N (48 + d)) = false).
    { assert (H : 0 <= d < 10) by lia. revert H. clear. intros H.
      by_cases_below 10%nat d. }
    cbn [trim_start]. rewrite Hws.
    assert (Hsign : match Z.to_N (48 + d) :: rest with
                    | 45%N :: r => (true, r)
                    | 43%N :: r => (false, r)
                    | _ => (false, Z.to_N (48 + d) :: rest)
                    end = (false, Z.to_N (48 + d) :: rest)).
    { assert (H : 0 <= d < 10) by lia. revert H. generalize rest. clear. intros rest H.
      by_cases_below 10%nat d. }
    rewrite Hsign, P. destruct n; reflexivity.
  - rewrite E. eapply List.Forall_impl; [|exact Hall]. cbn. intros c Hc. lia.
Qed.

Lemma str_compare_eq a : forall b, str_compare a b = Eq -> a = b.
Proof.
  induction a as [|x a IH]; intros [|y b] H; cbn [str_compare] in H;
    try discriminate; [reflexivity|].
  destruct (N.compare_spec x y) as [->| |]; try discriminate.
  f_equal. apply IH, H.
Qed.

Lemma str_eqb_eq a b : str_eqb a b = true <-> a = b.
Proof.
  unfold str_eqb. split.
  - intros H. apply str_compare_eq. destruct (str_compare a b); [reflexivity|discriminate..].
  - intros ->. rewrite str_compare_refl. reflexivity.
Qed.

Lemma port_of_option pre x post :
  Forall (fun a => startsWith a (lit "--port=") = false) pre ->
  Forall (fun c => c <> 61%N) x ->
  port (pre ++ (lit "--port=" ++ x) :: post) = parseInt10 x.
Proof.
  intros Hpre Hx. destruct (port_option_value x Hx) as [S1 S2].
  unfold port.
  rewrite (array_find_first (fun arg => startsWith arg (lit "--port=")) pre _ post Hpre S1).
  rewrite S2. reflexivity.
Qed.

(** Without any [--port=] argument the port is 3000. *)
Theorem port_defaults_to_3000 args :
  Forall (fun a => startsWith a (lit "--port=") = false) args ->
  port args = num_of_Z 3000.
Proof.
  intros H. unfold port. rewrite (array_find_none _ args H). reflexivity.
Qed.

Lemma port_defaults_witness :
  port [lit "--http"; lit "--verbose"] = num_of_Z 3000.
Proof.
  apply (port_defaults_to_3000 [lit "--http"; lit "--verbose"]).
  repeat (apply List.Forall_cons; [reflexivity|]). apply List.Forall_nil.
Defined.

(** The first argument that starts with [--port=] decides the port; what
    follows it on the command line is not looked at. *)
Theorem first_port_option_wins pre a post :
  Forall (fun a => startsWith a (lit "--port=") = false) pre ->
  startsWith a (lit "--port=") = true ->
  port (pre ++ a :: post) = port [a].
Proof.
  intros Hpre Ha. unfold port.
  rewrite (array_find_first (fun arg => startsWith arg (lit "--port=")) pre a post Hpre Ha).
  cbn [array_find]. rewrite Ha. reflexivity.
Qed.

Lemma first_port_option_witness :
  port [lit "--http"; lit "--port=8080"; lit "--port=9090"] = port [lit "--port=8080"].
Proof.
  apply (first_port_option_wins [lit "--http"] (lit "--port=8080") [lit "--port=9090"]).
  - apply List.Forall_cons; [reflexivity | apply List.Forall_nil].
  - reflexivity.
Defined.

(** A port given in decimal is read back exactly: for [0 <= n < 2^53],
    the argument [--port=<n>] sets the port to [n]. *)
Theorem port_round_trip n pre post :
  0 <= n < 2 ^ 53 ->
  Forall (fun a => startsWith a (lit "--port=") = false) pre ->
  port (pre ++ (lit "--port=" ++ toString10 n) :: post) = num_of_Z n.
Proof.
  intros Hn Hpre. destruct (parseInt10_toString10 n ltac:(lia)) as [P D].
  rewrite (port_of_option pre _ post Hpre D). exact P.
Qed.

Lemma port_round_trip_witness :
  port [lit "--http"; lit "--port=8080"] = num_of_Z 8080.
Proof.
  apply (port_round_trip 8080 [lit "--http"] []).
  - lia.
  - apply List.Forall_cons; [reflexivity | apply List.Forall_nil].
Defined.

(** A [--port=] argument whose value is empty, or begins with a code unit
    that is neither white space, a sign nor a decimal digit, makes the port
    NaN: the default 3000 is not used. *)
Theorem port_without_number_is_nan pre x post :
  Forall (fun a => startsWith a (lit "--port=") = false) pre ->
  Forall (fun c => c <> 61%N) x ->
  match x with
  | [] => True
  | c :: _ => is_whitespace c = false /\ c <> 45%N /\ c <> 43%N /\
              decimal_value c = None
  end ->
  port (pre ++ (lit "--port=" ++ x) :: post) = S754_nan.
Proof.
  intros Hpre Hx Hc. rewrite (port_of_option pre x post Hpre Hx).
  destruct x as [|c r]; [reflexivity|].
  destruct Hc as (Hw & Hm & Hp & Hd).
  unfold parseInt10. cbn [trim_start]. rewrite Hw.
  assert (E : match c :: r with
              | 45%N :: rest => (true, rest)
              | 43%N :: rest => (false, rest)
              | _ => (false, c :: r)
              end = (false, c :: r)).
  { destruct c as [|p]; [reflexivity|].
    do 6 (destruct p as [p|p|]; try reflexivity); try contradiction. }
  rewrite E. cbn [parse_digits]. rewrite Hd. reflexivity.
Qed.

Lemma port_without_number_witness :
  port [lit "--port="] = S754_nan /\ port [lit "--http"; lit "--port=abc"] = S754_nan.
Proof.
  split.
  - apply (port_without_number_is_nan [] [] []);
      [apply List.Forall_nil | apply List.Forall_nil | exact I].
  - apply (port_without_number_is_nan [lit "--http"] (lit "abc") []).
    + apply List.Forall_cons; [reflexivity | apply List.Forall_nil].
    + repeat (apply List.Forall_cons; [discriminate|]). apply List.Forall_nil.
    + repeat split; discriminate.
Defined.

(** The HTTP transport is started exactly when [--http] is among the
    arguments, on the port the arguments give; otherwise the stdio
    transport is started, whatever [--port=] says. *)
Theorem main_mode args :
  (In (lit "--http") args -> main args = startHttpServer (port args)) /\
  (~ In (lit "--http") args -> main args = startStdioServer).
Proof.
  unfold main, useHttp, array_includes.
  destruct (existsb (str_eqb (lit "--http")) args) eqn:E.
  - split; [reflexivity|]. intros H. exfalso. apply H.
    apply existsb_exists in E. destruct E as (a & Ha & Hq).
    apply str_eqb_eq in Hq. rewrite Hq. exact Ha.
  - split; [|reflexivity]. intros H.
    assert (T : existsb (str_eqb (lit "--http")) args = true).
    { apply existsb_exists. exists (lit "--http"). split; [exact H|].
      apply str_eqb_eq. reflexivity. }
    rewrite T in E. discriminate E.
Qed.

Lemma main_mode_witness :
  main [lit "--http"; lit "--port=8080"] = startHttpServer (port [lit "--http"; lit "--port=8080"]) /\
  main [lit "--port=8080"] = startStdioServer.
Proof.
  split.
  - apply (proj1 (main_mode [lit "--http"; lit "--port=8080"])). left. reflexivity.
  - apply (proj2 (main_mode [lit "--port=8080"])).
    intros [H|[]]. discriminate H.
Defined.
